(** * Zephyr's version solver (package [solver]): a shallow embedding

    The Go package [solver] is embedded function by function: the term
    and incompatibility types, the partial solution ([Assignments] is the
    trail), the satisfaction tests, conflict resolution, unit propagation,
    decision making and the [Solve] loop.  Go [int]s are [Z], slices are
    lists, the [changed] map of [UnitPropagation] is a [gset string]. *)

From Stdlib Require Import ZArith String Bool Lia.
From stdpp Require Import base list gmap strings.

Local Open Scope Z_scope.

(** ** Data model: terms, incompatibilities, the trail *)

Record VersionConstraint : Type := mkVersionConstraint {
  Min : string;
  Max : string;
  Specific : string
}.

Record Term : Type := mkTerm {
  Package : string;
  Version : VersionConstraint;
  Negated : bool
}.

(** [Cause *Incompatibility]: a nil pointer is [None]. *)
#[warnings="-register-all"]
Inductive Incompatibility : Type := mkIncompatibility {
  Terms : list Term;
  Cause : option Incompatibility
}.

Record Assignment : Type := mkAssignment {
  ATerm : Term;
  DecisionLevel : Z;
  IsDecision : bool;
  ACause : option Incompatibility
}.

(** [PartialSolution] has the single field [Assignments]. *)
Record PartialSolution : Type := mkPartialSolution {
  Assignments : list Assignment
}.

Definition IsSpecific (vc : VersionConstraint) : bool :=
  negb (String.eqb (Specific vc) "").

(** [VersionConstraint.String]. *)
Definition VersionConstraint_String (vc : VersionConstraint) : string :=
  if IsSpecific vc then Specific vc
  else if negb (String.eqb (Min vc) "") && negb (String.eqb (Max vc) "")
       then ">=" +:+ Min vc +:+ " <" +:+ Max vc
  else if negb (String.eqb (Min vc) "") then ">=" +:+ Min vc
  else if negb (String.eqb (Max vc) "") then "<" +:+ Max vc
  else "any".

Definition AddAssignment (ps : PartialSolution) (a : Assignment) : PartialSolution :=
  mkPartialSolution (Assignments ps ++ [a]).

Definition GetDecisionLevel (ps : PartialSolution) : Z :=
  match last (Assignments ps) with
  | None => 0
  | Some a => DecisionLevel a
  end.

(** [Backtrack]: [i] runs from [len-1] down to [0]; the slice is cut to
    [Assignments[:i]] while entry [i] lies above [level], and the loop
    stops at the first entry that does not.  [Backtrack_from n] is the
    loop about to look at index [n-1]. *)
Fixpoint Backtrack_from (n : nat) (assignments : list Assignment) (level : Z)
  : list Assignment :=
  match n with
  | O => assignments
  | S i =>
      match assignments !! i with
      | Some a =>
          if DecisionLevel a >? level
          then Backtrack_from i (take i assignments) level
          else assignments
      | None => assignments
      end
  end.

Definition Backtrack (ps : PartialSolution) (level : Z) : PartialSolution :=
  mkPartialSolution
    (Backtrack_from (length (Assignments ps)) (Assignments ps) level).

(** ** Satisfaction (satisfaction.go) *)

Inductive SatisfactionResult : Type :=
| Inconclusive
| Satisfied
| Contradicted.

Definition SatisfactionResult_eqb (a b : SatisfactionResult) : bool :=
  match a, b with
  | Inconclusive, Inconclusive | Satisfied, Satisfied
  | Contradicted, Contradicted => true
  | _, _ => false
  end.

Definition areCompatible (v1 v2 : VersionConstraint) : bool :=
  if String.eqb (VersionConstraint_String v1) "any"
     || String.eqb (VersionConstraint_String v2) "any"
  then true
  else true.

Definition satisfies (v1 v2 : VersionConstraint) : bool :=
  if String.eqb (VersionConstraint_String v2) "any" then true
  else if String.eqb (VersionConstraint_String v1) "any" then true
  else String.eqb (VersionConstraint_String v1) (VersionConstraint_String v2).

(** First loop of [Satisfies]: [true] when it returns [Contradicted]. *)
Fixpoint Satisfies_contradiction (l : list Assignment) (term : Term) : bool :=
  match l with
  | [] => false
  | assignment :: rest =>
      if String.eqb (Package (ATerm assignment)) (Package term) then
        if negb (Bool.eqb (Negated (ATerm assignment)) (Negated term)) then
          if negb (areCompatible (Version (ATerm assignment)) (Version term))
          then true
          else Satisfies_contradiction rest term
        else
          if negb (areCompatible (Version (ATerm assignment)) (Version term))
          then true
          else Satisfies_contradiction rest term
      else Satisfies_contradiction rest term
  end.

(** Second loop of [Satisfies]: [true] when it returns [Satisfied]. *)
Fixpoint Satisfies_satisfaction (l : list Assignment) (term : Term) : bool :=
  match l with
  | [] => false
  | assignment :: rest =>
      if String.eqb (Package (ATerm assignment)) (Package term) then
        if Bool.eqb (Negated (ATerm assignment)) (Negated term) then
          if satisfies (Version (ATerm assignment)) (Version term)
          then true
          else Satisfies_satisfaction rest term
        else Satisfies_satisfaction rest term
      else Satisfies_satisfaction rest term
  end.

Definition Satisfies (ps : PartialSolution) (term : Term) : SatisfactionResult :=
  if Satisfies_contradiction (Assignments ps) term then Contradicted
  else if Satisfies_satisfaction (Assignments ps) term then Satisfied
  else Inconclusive.

(** The counting loop of [SatisfiesIncompatibility]:
    [(satisfiedCount, contradictedCount)]. *)
Fixpoint SatisfiesIncompatibility_count (ps : PartialSolution) (terms : list Term)
  (satisfiedCount contradictedCount : Z) : Z * Z :=
  match terms with
  | [] => (satisfiedCount, contradictedCount)
  | term :: rest =>
      match Satisfies ps term with
      | Satisfied =>
          SatisfiesIncompatibility_count ps rest (satisfiedCount + 1) contradictedCount
      | Contradicted =>
          SatisfiesIncompatibility_count ps rest satisfiedCount (contradictedCount + 1)
      | Inconclusive =>
          SatisfiesIncompatibility_count ps rest satisfiedCount contradictedCount
      end
  end.

Definition SatisfiesIncompatibility (ps : PartialSolution)
  (incompatibility : Incompatibility) : SatisfactionResult :=
  let '(satisfiedCount, contradictedCount) :=
    SatisfiesIncompatibility_count ps (Terms incompatibility) 0 0 in
  if contradictedCount >? 0 then Contradicted
  else if satisfiedCount =? Z.of_nat (length (Terms incompatibility)) then Satisfied
  else Inconclusive.

(** The loop of [AlmostSatisfies]: [(satisfiedCount, unsatisfiedTerm)].
    The pointer [&term] is taken to the iteration's own copy of the
    element (Go's per-iteration loop variables), so [unsatisfiedTerm]
    holds the first inconclusive term. *)
Fixpoint AlmostSatisfies_loop (ps : PartialSolution) (terms : list Term)
  (satisfiedCount : Z) (unsatisfiedTerm : option Term) : Z * option Term :=
  match terms with
  | [] => (satisfiedCount, unsatisfiedTerm)
  | term :: rest =>
      match Satisfies ps term with
      | Satisfied => AlmostSatisfies_loop ps rest (satisfiedCount + 1) unsatisfiedTerm
      | Inconclusive =>
          match unsatisfiedTerm with
          | None => AlmostSatisfies_loop ps rest satisfiedCount (Some term)
          | Some _ => AlmostSatisfies_loop ps rest satisfiedCount unsatisfiedTerm
          end
      | Contradicted => AlmostSatisfies_loop ps rest satisfiedCount unsatisfiedTerm
      end
  end.

Definition AlmostSatisfies (ps : PartialSolution)
  (incompatibility : Incompatibility) : option Term :=
  let '(satisfiedCount, unsatisfiedTerm) :=
    AlmostSatisfies_loop ps (Terms incompatibility) 0 None in
  if (satisfiedCount =? Z.of_nat (length (Terms incompatibility)) - 1)
  then match unsatisfiedTerm with
       | Some t => Some t
       | None => None
       end
  else None.

(** ** The solver state *)

Record Solver : Type := mkSolver {
  partialSolution : PartialSolution;
  incompatibilities : list Incompatibility;
  rootPackage : string;
  rootVersion : string
}.

Definition set_partialSolution (s : Solver) (ps : PartialSolution) : Solver :=
  mkSolver ps (incompatibilities s) (rootPackage s) (rootVersion s).

Definition set_incompatibilities (s : Solver) (l : list Incompatibility) : Solver :=
  mkSolver (partialSolution s) l (rootPackage s) (rootVersion s).

Definition NewSolver (rootPackage rootVersion : string) : Solver :=
  mkSolver (mkPartialSolution []) [] rootPackage rootVersion.

Definition AddIncompatibility (s : Solver) (incompatibility : Incompatibility) : Solver :=
  set_incompatibilities s (incompatibilities s ++ [incompatibility]).

Definition addRootIncompatibilities (s : Solver) : Solver :=
  let rootIncompatibility :=
    mkIncompatibility
      [ mkTerm (rootPackage s) (mkVersionConstraint "" "" (rootVersion s)) false;
        mkTerm "dependency" (mkVersionConstraint "1.0.0" "" "") true ]
      None in
  set_incompatibilities s (incompatibilities s ++ [rootIncompatibility]).

Definition initializeRootPackage (s : Solver) : Solver :=
  let rootTerm :=
    mkTerm (rootPackage s) (mkVersionConstraint "" "" (rootVersion s)) false in
  let rootAssignment := mkAssignment rootTerm 0 true None in
  addRootIncompatibilities
    (set_partialSolution s (AddAssignment (partialSolution s) rootAssignment)).

(** ** Conflict resolution (conflict_resolution.go) *)

Definition isRootCause (s : Solver) (incompatibility : Incompatibility) : bool :=
  match Terms incompatibility with
  | [] => true
  | [t] => String.eqb (Package t) (rootPackage s) && negb (Negated t)
  | _ => false
  end.

Definition assignmentSatisfiesIncompatibility (s : Solver) (assignment : Assignment)
  (incompatibility : Incompatibility) : bool := false.

Definition assignmentPlusSatisfierSatisfiesIncompatibility (s : Solver)
  (assignment satisfier : Assignment) (incompatibility : Incompatibility) : bool :=
  false.

(** [findSatisfier]: [n] is one more than the index the loop looks at. *)
Fixpoint findSatisfier_from (n : nat) (s : Solver) (incompatibility : Incompatibility)
  : option Assignment :=
  match n with
  | O => None
  | S i =>
      match Assignments (partialSolution s) !! i with
      | Some assignment =>
          if assignmentSatisfiesIncompatibility s assignment incompatibility
          then Some assignment
          else findSatisfier_from i s incompatibility
      | None => None
      end
  end.

Definition findSatisfier (s : Solver) (incompatibility : Incompatibility)
  : option Assignment :=
  findSatisfier_from (length (Assignments (partialSolution s))) s incompatibility.

(** The test [&assignment == satisfier] of [findPreviousSatisfier]
    compares the address of the range loop's own variable with the
    pointer [findSatisfier] returned, which is the address of the copy
    made in that function's frame.  Two distinct variables never share an
    address, so the test is false whatever the two values are. *)
Definition is_loop_variable (assignment satisfier : Assignment) : bool := false.

Fixpoint findPreviousSatisfier_index (l : list Assignment) (satisfier : Assignment)
  (i : Z) : Z :=
  match l with
  | [] => -1
  | assignment :: rest =>
      if is_loop_variable assignment satisfier then i
      else findPreviousSatisfier_index rest satisfier (i + 1)
  end.

Fixpoint findPreviousSatisfier_from (n : nat) (s : Solver)
  (incompatibility : Incompatibility) (satisfier : Assignment) : option Assignment :=
  match n with
  | O => None
  | S i =>
      match Assignments (partialSolution s) !! i with
      | Some assignment =>
          if assignmentPlusSatisfierSatisfiesIncompatibility
               s assignment satisfier incompatibility
          then Some assignment
          else findPreviousSatisfier_from i s incompatibility satisfier
      | None => None
      end
  end.

Definition findPreviousSatisfier (s : Solver) (incompatibility : Incompatibility)
  (satisfier : Assignment) : option Assignment :=
  let satisfierIndex :=
    findPreviousSatisfier_index (Assignments (partialSolution s)) satisfier 0 in
  if satisfierIndex =? -1 then None
  else findPreviousSatisfier_from (Z.to_nat satisfierIndex) s incompatibility satisfier.

Definition getPreviousSatisfierLevel (s : Solver) (previousSatisfier : option Assignment)
  : Z :=
  match previousSatisfier with
  | None => 1
  | Some a => DecisionLevel a
  end.

Definition determineBacktrackLevel (s : Solver) (incompatibility : Incompatibility) : Z :=
  0.

Definition backtrackFromConflict (s : Solver) (incompatibility : Incompatibility)
  : Solver :=
  let backtrackLevel := determineBacktrackLevel s incompatibility in
  set_partialSolution s (Backtrack (partialSolution s) backtrackLevel).

Definition createPriorCause (s : Solver) (incompatibility : Incompatibility)
  (satisfier : Assignment) : Incompatibility :=
  let mergedTerms := Terms incompatibility in
  let mergedTerms :=
    match ACause satisfier with
    | Some cause =>
        mergedTerms ++
        List.filter
          (fun term => negb (String.eqb (Package term) (Package (ATerm satisfier))))
          (Terms cause)
    | None => mergedTerms
    end in
  mkIncompatibility mergedTerms (Some incompatibility).

(** [resolveConflict] is a [for { ... }] loop: one unit of fuel per
    iteration, [None] when the fuel runs out.  The result pairs the
    solver after the call with the returned pointer. *)
Fixpoint resolveConflict (fuel : nat) (s : Solver) (incompatibility : Incompatibility)
  : option (Solver * option Incompatibility) :=
  match fuel with
  | O => None
  | S fuel' =>
      if isRootCause s incompatibility then
        Some (backtrackFromConflict s incompatibility, Some incompatibility)
      else
        match findSatisfier s incompatibility with
        | None => Some (s, None)
        | Some satisfier =>
            let previousSatisfier := findPreviousSatisfier s incompatibility satisfier in
            let previousSatisfierLevel := getPreviousSatisfierLevel s previousSatisfier in
            if IsDecision satisfier
               || negb (previousSatisfierLevel =? DecisionLevel satisfier)
            then Some (backtrackFromConflict s incompatibility, Some incompatibility)
            else resolveConflict fuel' s (createPriorCause s incompatibility satisfier)
        end
  end.

(** ** Unit propagation (unit_propagation.go) *)

Record UnitPropagationResult : Type := mkUnitPropagationResult {
  Success : bool;
  Conflict : option Incompatibility
}.

(** A call of a function that loops either returns, with the solver it
    leaves behind, or is still running when the fuel is spent; the solver
    reached so far is kept in that case. *)
Inductive Outcome (A : Type) : Type :=
| Returned (a : A) (s : Solver)
| OutOfFuel (s : Solver).
Arguments Returned {A} a s.
Arguments OutOfFuel {A} s.

Fixpoint mentions (packageName : string) (terms : list Term) : bool :=
  match terms with
  | [] => false
  | term :: rest =>
      if String.eqb (Package term) packageName then true
      else mentions packageName rest
  end.

Fixpoint getIncompatibilitiesForPackage_loop (l : list Incompatibility)
  (packageName : string) (result : list Incompatibility) : list Incompatibility :=
  match l with
  | [] => result
  | incompatibility :: rest =>
      if mentions packageName (Terms incompatibility)
      then getIncompatibilitiesForPackage_loop rest packageName (result ++ [incompatibility])
      else getIncompatibilitiesForPackage_loop rest packageName result
  end.

Definition getIncompatibilitiesForPackage (s : Solver) (packageName : string)
  : list Incompatibility :=
  getIncompatibilitiesForPackage_loop (incompatibilities s) packageName [].

Definition negate (t : Term) : Term :=
  mkTerm (Package t) (Version t) (negb (Negated t)).

(** The derivation both branches of the inner loop append. *)
Definition derive (s : Solver) (unsatisfiedTerm : Term) (cause : Incompatibility)
  : Solver :=
  let negatedTerm := negate unsatisfiedTerm in
  let assignment :=
    mkAssignment negatedTerm (GetDecisionLevel (partialSolution s)) false (Some cause) in
  set_partialSolution s (AddAssignment (partialSolution s) assignment).

Inductive ScanResult : Type :=
| ScanFailed (s : Solver) (conflict : Incompatibility)
| ScanDone (s : Solver) (changed : gset string)
| ScanOutOfFuel (s : Solver).

(** The inner loop, [for i := len(incompatibilities) - 1; i >= 0; i--]:
    [todo] lists the incompatibilities still to visit, newest first.
    There is no [break] in the loop body: after a conflict the remaining
    incompatibilities are visited all the same. *)
Fixpoint UnitPropagation_scan (fuel : nat) (s : Solver) (changed : gset string)
  (todo : list Incompatibility) : ScanResult :=
  match todo with
  | [] => ScanDone s changed
  | incompatibility :: rest =>
      match SatisfiesIncompatibility (partialSolution s) incompatibility with
      | Satisfied =>
          match resolveConflict fuel s incompatibility with
          | None => ScanOutOfFuel s
          | Some (s1, None) => ScanFailed s1 incompatibility
          | Some (s1, Some resolvedIncompatibility) =>
              match AlmostSatisfies (partialSolution s1) resolvedIncompatibility with
              | Some unsatisfiedTerm =>
                  UnitPropagation_scan fuel
                    (derive s1 unsatisfiedTerm resolvedIncompatibility)
                    {[ Package unsatisfiedTerm ]} rest
              | None => UnitPropagation_scan fuel s1 changed rest
              end
          end
      | Inconclusive =>
          match AlmostSatisfies (partialSolution s) incompatibility with
          | Some unsatisfiedTerm =>
              UnitPropagation_scan fuel
                (derive s unsatisfiedTerm incompatibility)
                (changed ∪ {[ Package unsatisfiedTerm ]}) rest
          | None => UnitPropagation_scan fuel s changed rest
          end
      | Contradicted => UnitPropagation_scan fuel s changed rest
      end
  end.

(** [for pkg := range changed { ...; break }] takes whichever key Go's
    map iteration yields first; the order is unspecified and differs from
    one run to the next.  A run is fixed by [rnd]: the [k]-th pick of the
    run takes the key at position [rnd k] (modulo the size) of the keys. *)
Definition pick (rnd : nat → nat) (k : nat) (changed : gset string) : option string :=
  let keys := elements changed in
  keys !! (rnd k `mod` length keys)%nat.

(** The outer loop [for len(changed) > 0]: one unit of fuel per
    iteration.  A returned result comes with the number of picks made so
    far in the run. *)
Fixpoint UnitPropagation_loop (fuel : nat) (rnd : nat → nat) (k : nat)
  (s : Solver) (changed : gset string) : Outcome (UnitPropagationResult * nat) :=
  match pick rnd k changed with
  | None => Returned (mkUnitPropagationResult true None, k) s
  | Some currentPackage =>
      match fuel with
      | O => OutOfFuel s
      | S fuel' =>
          let changed := changed ∖ {[ currentPackage ]} in
          let incompatibilities := getIncompatibilitiesForPackage s currentPackage in
          match UnitPropagation_scan (S fuel') s changed (rev incompatibilities) with
          | ScanFailed s' conflict =>
              Returned (mkUnitPropagationResult false (Some conflict), S k) s'
          | ScanOutOfFuel s' => OutOfFuel s'
          | ScanDone s' changed' => UnitPropagation_loop fuel' rnd (S k) s' changed'
          end
      end
  end.

Definition UnitPropagation (fuel : nat) (rnd : nat → nat) (k : nat)
  (s : Solver) (packageName : string) : Outcome (UnitPropagationResult * nat) :=
  UnitPropagation_loop fuel rnd k s {[ packageName ]}.

(** ** Decision making ([DecisionMaking] and its helpers) *)

Record DecisionResult : Type := mkDecisionResult {
  DSuccess : bool;
  NextPackage : string;
  Error : string
}.

Fixpoint hasDecision (l : list Assignment) (pkg : string) : bool :=
  match l with
  | [] => false
  | otherAssignment :: rest =>
      if IsDecision otherAssignment
         && String.eqb (Package (ATerm otherAssignment)) pkg
      then true
      else hasDecision rest pkg
  end.

Fixpoint findPackageForDecision_loop (all l : list Assignment) : string :=
  match l with
  | [] => ""
  | assignment :: rest =>
      if negb (IsDecision assignment) && negb (Negated (ATerm assignment)) then
        if negb (hasDecision all (Package (ATerm assignment)))
        then Package (ATerm assignment)
        else findPackageForDecision_loop all rest
      else findPackageForDecision_loop all rest
  end.

Definition findPackageForDecision (s : Solver) : string :=
  findPackageForDecision_loop
    (Assignments (partialSolution s)) (Assignments (partialSolution s)).

Definition getTermForPackage (s : Solver) (packageName : string) : option Term :=
  let terms :=
    List.map ATerm
      (List.filter (fun assignment => String.eqb (Package (ATerm assignment)) packageName)
         (Assignments (partialSolution s))) in
  match terms with
  | [] => None
  | first :: _ => Some first
  end.

Definition findMatchingVersion (s : Solver) (packageName : string) (term : Term)
  : string :=
  if IsSpecific (Version term) then Specific (Version term)
  else "1.0.0".

Definition addDependenciesForVersion (s : Solver) (packageName version : string)
  : Solver :=
  let dependency :=
    mkIncompatibility
      [ mkTerm packageName (mkVersionConstraint "" "" version) false;
        mkTerm "dependency" (mkVersionConstraint "1.0.0" "" "") true ]
      None in
  set_incompatibilities s (incompatibilities s ++ [dependency]).

Definition DecisionMaking (s : Solver) : Solver * DecisionResult :=
  let packageName := findPackageForDecision s in
  if String.eqb packageName "" then (s, mkDecisionResult true "" "")
  else
    match getTermForPackage s packageName with
    | None =>
        (s, mkDecisionResult false "" ("no term found for package " +:+ packageName))
    | Some term =>
        let version := findMatchingVersion s packageName term in
        if String.eqb version "" then
          let incompatibility := mkIncompatibility [term] None in
          (set_incompatibilities s (incompatibilities s ++ [incompatibility]),
           mkDecisionResult false packageName "")
        else
          let s1 := addDependenciesForVersion s packageName version in
          let decisionTerm :=
            mkTerm packageName (mkVersionConstraint "" "" version) false in
          let assignment :=
            mkAssignment decisionTerm (GetDecisionLevel (partialSolution s1) + 1)
              true None in
          (set_partialSolution s1 (AddAssignment (partialSolution s1) assignment),
           mkDecisionResult false packageName "")
    end.

(** ** The solve loop ([Solve]) *)

(** [Solve] returns a solution pointer and an error, one of them nil. *)
Inductive SolveResult : Type :=
| SolveOk (solution : PartialSolution)
| SolveErr (msg : string).

(** What one pass through the body of the main loop does. *)
Inductive Iteration : Type :=
| IterReturn (r : SolveResult) (s : Solver)
| IterContinue (s : Solver) (nextPackage : string) (k : nat)
| IterOutOfFuel (s : Solver).

Definition Solve_iteration (fuel : nat) (rnd : nat → nat) (k : nat)
  (s : Solver) (nextPackage : string) : Iteration :=
  match UnitPropagation fuel rnd k s nextPackage with
  | OutOfFuel s1 => IterOutOfFuel s1
  | Returned (result, k1) s1 =>
      if negb (Success result)
      then IterReturn (SolveErr "version solving failed: conflict detected") s1
      else
        let '(s2, decisionResult) := DecisionMaking s1 in
        if DSuccess decisionResult
        then IterReturn (SolveOk (partialSolution s2)) s2
        else if negb (String.eqb (Error decisionResult) "")
        then IterReturn
               (SolveErr ("decision making failed: " +:+ Error decisionResult)) s2
        else IterContinue s2 (NextPackage decisionResult) k1
  end.

Fixpoint Solve_loop (fuel : nat) (rnd : nat → nat) (k : nat)
  (s : Solver) (nextPackage : string) : Outcome SolveResult :=
  match fuel with
  | O => OutOfFuel s
  | S fuel' =>
      match Solve_iteration (S fuel') rnd k s nextPackage with
      | IterReturn r s1 => Returned r s1
      | IterOutOfFuel s1 => OutOfFuel s1
      | IterContinue s1 nextPackage1 k1 => Solve_loop fuel' rnd k1 s1 nextPackage1
      end
  end.

Definition Solve (fuel : nat) (rnd : nat → nat) (s : Solver) : Outcome SolveResult :=
  let s := initializeRootPackage s in
  Solve_loop fuel rnd 0 s (rootPackage s).

(** The solver states met at the top of the main loop of a run of
    [Solve] on [s0], with the package and pick count carried there. *)
Inductive loop_head (rnd : nat → nat) (s0 : Solver) : Solver → string → nat → Prop :=
| loop_head_first :
    loop_head rnd s0 (initializeRootPackage s0) (rootPackage s0) 0%nat
| loop_head_next fuel s nextPackage k s1 nextPackage1 k1 :
    loop_head rnd s0 s nextPackage k →
    Solve_iteration fuel rnd k s nextPackage = IterContinue s1 nextPackage1 k1 →
    loop_head rnd s0 s1 nextPackage1 k1.

(** ** Printing and lookup on the data model *)

(** [strings.Join]. *)
Fixpoint join (sep : string) (l : list string) : string :=
  match l with
  | [] => ""
  | [x] => x
  | x :: rest => x +:+ sep +:+ join sep rest
  end.

(** [Term.String]. *)
Definition Term_String (t : Term) : string :=
  let prefix := if Negated t then "not " else "" in
  prefix +:+ Package t +:+ " " +:+ VersionConstraint_String (Version t).

(** [Incompatibility.String]. *)
Definition Incompatibility_String (i : Incompatibility) : string :=
  "{" +:+ join ", " (List.map Term_String (Terms i)) +:+ "}".

(** [GetAssignmentByPackage]: [n] is one more than the index the loop
    looks at; a nil result is [None]. *)
Fixpoint GetAssignmentByPackage_from (n : nat) (assignments : list Assignment)
  (pkg : string) : option Assignment :=
  match n with
  | O => None
  | S i =>
      match assignments !! i with
      | Some a =>
          if String.eqb (Package (ATerm a)) pkg then Some a
          else GetAssignmentByPackage_from i assignments pkg
      | None => None
      end
  end.

Definition GetAssignmentByPackage (ps : PartialSolution) (pkg : string)
  : option Assignment :=
  GetAssignmentByPackage_from (length (Assignments ps)) (Assignments ps) pkg.

Definition GetSolution (s : Solver) : PartialSolution := partialSolution s.

Definition GetIncompatibilities (s : Solver) : list Incompatibility :=
  incompatibilities s.

(** ** Error report *)

Record ErrorReport : Type := mkErrorReport {
  Lines : list string
}.

(** [Causes []*DerivationNode]: the nodes are owned by their parent. *)
#[warnings="-register-all"]
Inductive DerivationNode : Type := mkDerivationNode {
  NIncompatibility : Incompatibility;
  Causes : list DerivationNode;
  OutgoingEdges : Z;
  LineNumber : Z
}.

Definition buildDerivationGraph (s : Solver) (root : Incompatibility) : DerivationNode :=
  mkDerivationNode root []
    (match Cause root with Some _ => 0 + 1 | None => 0 end) 0.

(** The list both formatters build for an incompatibility that does not
    have exactly one term. *)
Definition format_terms (terms : list Term) : list string :=
  List.map
    (fun term =>
       if Negated term
       then "not " +:+ Package term +:+ " " +:+ VersionConstraint_String (Version term)
       else Package term +:+ " " +:+ VersionConstraint_String (Version term))
    terms.

Definition formatExternalIncompatibility (s : Solver) (incompatibility : Incompatibility)
  : string :=
  match Terms incompatibility with
  | [term] =>
      if String.eqb (Package term) (rootPackage s)
      then "The root package " +:+ VersionConstraint_String (Version term)
           +:+ " cannot be selected"
      else "Package " +:+ Package term +:+ " "
           +:+ VersionConstraint_String (Version term) +:+ " cannot be selected"
  | terms => "Dependency conflict: " +:+ join " and " (format_terms terms)
  end.

Definition formatIncompatibility (s : Solver) (incompatibility : Incompatibility)
  : string :=
  match Terms incompatibility with
  | [term] =>
      if String.eqb (Package term) (rootPackage s)
      then "root " +:+ VersionConstraint_String (Version term)
      else Package term +:+ " " +:+ VersionConstraint_String (Version term)
  | terms => "{" +:+ join ", " (format_terms terms) +:+ "}"
  end.

Definition formatDerivedIncompatibility (s : Solver)
  (incompatibility cause : Incompatibility) : string :=
  "Because " +:+ formatIncompatibility s cause +:+ ", "
  +:+ formatIncompatibility s incompatibility.

Definition formatTwoCauseIncompatibility (s : Solver)
  (incompatibility cause1 cause2 : Incompatibility) : string :=
  "Because " +:+ formatIncompatibility s cause1 +:+ " and "
  +:+ formatIncompatibility s cause2 +:+ ", "
  +:+ formatIncompatibility s incompatibility.

Definition add_line (report : ErrorReport) (line : string) : ErrorReport :=
  mkErrorReport (Lines report ++ [line]).

(** The tail of [generateReportLines]: a node used more than once is
    given the number of the last line. *)
Definition number_node (node : DerivationNode) (report : ErrorReport) : DerivationNode :=
  if OutgoingEdges node >? 1
  then mkDerivationNode (NIncompatibility node) (Causes node) (OutgoingEdges node)
         (Z.of_nat (length (Lines report)))
  else node.

(** [generateReportLines] writes to the node and to the report it is
    given pointers to: both are returned.  A node without causes returns
    before the numbering; a node with more than two causes adds no
    line. *)
Fixpoint generateReportLines (s : Solver) (node : DerivationNode) (report : ErrorReport)
  : DerivationNode * ErrorReport :=
  match node with
  | mkDerivationNode incompatibility causes outgoing line =>
      match causes with
      | [] =>
          (node, add_line report (formatExternalIncompatibility s incompatibility))
      | [cause] =>
          let '(cause, report) := generateReportLines s cause report in
          let report :=
            add_line report
              (formatDerivedIncompatibility s incompatibility (NIncompatibility cause)) in
          (number_node (mkDerivationNode incompatibility [cause] outgoing line) report,
           report)
      | [cause1; cause2] =>
          let '(cause1, report) := generateReportLines s cause1 report in
          let '(cause2, report) := generateReportLines s cause2 report in
          let report :=
            add_line report
              (formatTwoCauseIncompatibility s incompatibility
                 (NIncompatibility cause1) (NIncompatibility cause2)) in
          (number_node (mkDerivationNode incompatibility [cause1; cause2] outgoing line)
             report,
           report)
      | _ => (number_node node report, report)
      end
  end.

Definition GenerateErrorReport (s : Solver) (rootIncompatibility : Incompatibility)
  : ErrorReport :=
  let report := mkErrorReport [] in
  let graph := buildDerivationGraph s rootIncompatibility in
  (generateReportLines s graph report).2.

(** [ErrorReport.String]: the lines joined by a newline. *)
Definition ErrorReport_String (er : ErrorReport) : string :=
  join (String (Ascii.ascii_of_nat 10) "") (Lines er).

(** * Vocabulary of the properties *)

(** ** Counting the terms of an incompatibility by their relation *)

(** How many terms of a list [Satisfies] maps to [r]. *)
Fixpoint count_result (ps : PartialSolution) (r : SatisfactionResult) (terms : list Term) : Z :=
  match terms with
  | [] => 0
  | t :: rest =>
      (if SatisfactionResult_eqb (Satisfies ps t) r then 1 else 0)
      + count_result ps r rest
  end.

Fixpoint first_inconclusive (ps : PartialSolution) (terms : list Term) : option Term :=
  match terms with
  | [] => None
  | t :: rest =>
      match Satisfies ps t with
      | Inconclusive => Some t
      | _ => first_inconclusive ps rest
      end
  end.

(** One inconclusive term, all the others satisfied. *)
Definition only_inconclusive (ps : PartialSolution) (t : Term) (terms : list Term) : Prop :=
  ∃ before after : list Term,
    terms = before ++ t :: after
    ∧ Satisfies ps t = Inconclusive
    ∧ Forall (λ u, Satisfies ps u = Satisfied) before
    ∧ Forall (λ u, Satisfies ps u = Satisfied) after.

(** ** The accumulated positive set of a package *)

Section AccumulatedSet.
(** The solver leaves the order on versions to its caller. *)
Variable version_le : string → string → Prop.

(** The versions a constraint stands for, as [VersionConstraint.String]
    prints it: one specific version, or the range from [Min] (included)
    to [Max] (excluded), an empty bound being no bound. *)
Definition contains (vc : VersionConstraint) (v : string) : Prop :=
  if IsSpecific vc then v = Specific vc
  else (Min vc = "" ∨ version_le (Min vc) v)
       ∧ (Max vc = "" ∨ (version_le v (Max vc) ∧ v ≠ Max vc)).

(** [S_acc]: the versions every positive term asserted for [P] allows;
    all of them when nothing positive is asserted for [P]. *)
Definition accumulated (ps : PartialSolution) (P v : string) : Prop :=
  ∀ a, a ∈ Assignments ps → Package (ATerm a) = P →
       Negated (ATerm a) = false → contains (Version (ATerm a)) v.

(** The relation of a positive term [t], in the words of the
    specification. *)
Definition positive_relation (ps : PartialSolution) (t : Term)
  (r : SatisfactionResult) : Prop :=
  let subset := ∀ v, accumulated ps (Package t) v → contains (Version t) v in
  let disjoint := ∀ v, accumulated ps (Package t) v → ¬ contains (Version t) v in
  match r with
  | Satisfied => subset
  | Contradicted => disjoint
  | Inconclusive => ¬ subset ∧ ¬ disjoint
  end.

End AccumulatedSet.

(** ** Decision making *)

(** What the no-matching-version branch of [DecisionMaking] returns:
    the incompatibility [{term}] is stored, nothing is decided. *)
Definition no_version_branch (s : Solver) (packageName : string) (term : Term)
  : Solver * DecisionResult :=
  (set_incompatibilities s (incompatibilities s ++ [mkIncompatibility [term] None]),
   mkDecisionResult false packageName "").

(** ** Decisions on the trail *)

(** The packages of the decisions of a trail, in trail order. *)
Definition decided (l : list Assignment) : list string :=
  List.map (λ a, Package (ATerm a)) (List.filter IsDecision l).


(** The solver a call leaves behind, whichever way it ended. *)
Definition outcome_solver {A : Type} (o : Outcome A) : Solver :=
  match o with
  | Returned _ s => s
  | OutOfFuel s => s
  end.

Definition scan_solver (r : ScanResult) : Solver :=
  match r with
  | ScanFailed s _ => s
  | ScanDone s _ => s
  | ScanOutOfFuel s => s
  end.

Definition iteration_solver (i : Iteration) : Solver :=
  match i with
  | IterReturn _ s => s
  | IterContinue s _ _ => s
  | IterOutOfFuel s => s
  end.

(** A solver as [Solve] expects it: made by [NewSolver], then given
    incompatibilities through [AddIncompatibility]. *)
Definition fresh (root version : string) (given : list Incompatibility) : Solver :=
  foldl AddIncompatibility (NewSolver root version) given.

(** Positive assignments made at level 0: all a run of [Solve] ever
    appends before its first decision. *)
Definition plain (a : Assignment) : Prop :=
  Negated (ATerm a) = false ∧ DecisionLevel a = 0.

(** ** What [initializeRootPackage] puts in place *)

Definition rootTerm (root version : string) : Term :=
  mkTerm root (mkVersionConstraint "" "" version) false.

Definition dependencyTerm : Term :=
  mkTerm "dependency" (mkVersionConstraint "1.0.0" "" "") true.

Definition rootAssignment (root version : string) : Assignment :=
  mkAssignment (rootTerm root version) 0 true None.

Definition rootIncompatibility (root version : string) : Incompatibility :=
  mkIncompatibility [rootTerm root version; dependencyTerm] None.

(** The derivation [rootIncompatibility] forces at level 0. *)
Definition dependencyDerivation (root version : string) : Assignment :=
  mkAssignment (negate dependencyTerm) 0 false (Some (rootIncompatibility root version)).

(** The solver with the root decided and [dependency] derived [n] times
    over. *)
Definition rederived (root version : string) (n : nat) : Solver :=
  mkSolver
    (mkPartialSolution
       (rootAssignment root version :: replicate n (dependencyDerivation root version)))
    [rootIncompatibility root version] root version.

(** ** Inputs of the repository's tests and examples *)

(** [TestSolver_Solve_Conflict]: root [foo 1.0.0] with [{foo 1.0.0}]
    and [{not foo 1.0.0}] added before [Solve]; the test expects an
    error. *)
Definition conflict_inc1 : Incompatibility :=
  mkIncompatibility [mkTerm "foo" (mkVersionConstraint "" "" "1.0.0") false] None.

Definition conflict_inc2 : Incompatibility :=
  mkIncompatibility [mkTerm "foo" (mkVersionConstraint "" "" "1.0.0") true] None.

Definition conflict_test_solver : Solver :=
  AddIncompatibility (AddIncompatibility (NewSolver "foo" "1.0.0") conflict_inc1)
    conflict_inc2.


(** Root [root 1.0.0] which excludes every version of [dependency]. *)
Definition excluded_inc : Incompatibility :=
  mkIncompatibility
    [mkTerm "root" (mkVersionConstraint "" "" "1.0.0") false;
     mkTerm "dependency" (mkVersionConstraint "" "" "") false] None.

Definition excluded_solver : Solver :=
  AddIncompatibility (NewSolver "root" "1.0.0") excluded_inc.




(** [zephyr solve root 1.0.0]: [handleSolve] of main.go adds the two
    incompatibilities of [addSampleIncompatibilities], root depends on
    [foo >=1.0.0] and on [bar >=1.0.0], before it calls [Solve]. *)
Definition sample_solver : Solver :=
  AddIncompatibility
    (AddIncompatibility (NewSolver "root" "1.0.0")
       (mkIncompatibility
          [mkTerm "root" (mkVersionConstraint "" "" "1.0.0") false;
           mkTerm "foo" (mkVersionConstraint "1.0.0" "" "") true] None))
    (mkIncompatibility
       [mkTerm "root" (mkVersionConstraint "" "" "1.0.0") false;
        mkTerm "bar" (mkVersionConstraint "1.0.0" "" "") true] None).

(** The solver of [TestSolver_Solve_Conflict] once the root is decided,
    with [rest] appended to the trail since. *)
Definition conflict_state (rest : list Assignment) : Solver :=
  mkSolver (mkPartialSolution (rootAssignment "foo" "1.0.0" :: rest))
    [conflict_inc1; conflict_inc2; rootIncompatibility "foo" "1.0.0"]
    "foo" "1.0.0".

Definition fooDerivation : Assignment :=
  mkAssignment (mkTerm "foo" (mkVersionConstraint "" "" "1.0.0") false) 0 false
    (Some conflict_inc2).




(** ** Decision levels along the trail *)

(** The decision levels never decrease from one entry of the trail to a
    later one. *)
Definition nondecreasing (l : list Assignment) : Prop :=
  ∀ (i j : nat) (a b : Assignment),
    (i ≤ j)%nat → l !! i = Some a → l !! j = Some b →
    DecisionLevel a <= DecisionLevel b.

(** The assignments of a trail at or below a level. *)
Definition at_most (level : Z) (l : list Assignment) : list Assignment :=
  List.filter (λ a, DecisionLevel a <=? level) l.

(** ** What propagation leaves alone *)

(** The store and the root of [s'] are those of [s]. *)
Definition same_store (s s' : Solver) : Prop :=
  incompatibilities s' = incompatibilities s
  ∧ rootPackage s' = rootPackage s
  ∧ rootVersion s' = rootVersion s.

(** ** A solve under way *)

(** The solver of a run of [Solve] on [fresh root version given] while
    it is in its first unit propagation: the root decided, [rest]
    appended since, the root's own incompatibility last in the store. *)
Definition started (root version : string) (given : list Incompatibility)
  (rest : list Assignment) : Solver :=
  mkSolver (mkPartialSolution (rootAssignment root version :: rest))
    (given ++ [rootIncompatibility root version]) root version.

Definition level0 (l : list Assignment) : Prop :=
  Forall (λ a, DecisionLevel a = 0) l.

(** ** Packages awaiting a decision *)

(** A positive derivation. *)
Definition awaits (a : Assignment) : bool :=
  negb (IsDecision a) && negb (Negated (ATerm a)).

(** Every positive derivation of [l] is on a package decided on the
    trail [all]. *)
Definition all_decided (all l : list Assignment) : Prop :=
  Forall (λ a, awaits a = true → hasDecision all (Package (ATerm a)) = true) l.


(** ** Causes and levels of the entries of the trail *)


(** The decision level of every entry is the number of decisions made
    up to and including it, the root's not counted. *)
Definition levels_count_decisions (l : list Assignment) : Prop :=
  ∀ (i : nat) (a : Assignment),
    l !! i = Some a →
    DecisionLevel a = Z.of_nat (length (decided (take (S i) l))) - 1.

(** ** Tactics *)

(** [changed] stays within the two packages the incompatibilities name. *)
Ltac within_foo_dependency Hsub :=
  let x := fresh "x" in
  let Hx := fresh "Hx" in
  set_unfold; intros x Hx; specialize (Hsub x); tauto.

(** * Properties *)

(** ** The repository's unit tests on the data model *)

(** [TestVersionConstraintString]. *)
Example VersionConstraint_String_test :
  List.map VersionConstraint_String
    [mkVersionConstraint "" "" "1.0.0"; mkVersionConstraint "1.0.0" "" "";
     mkVersionConstraint "" "2.0.0" ""; mkVersionConstraint "1.0.0" "2.0.0" "";
     mkVersionConstraint "" "" ""]
  = ["1.0.0"; ">=1.0.0"; "<2.0.0"; ">=1.0.0 <2.0.0"; "any"].
Proof. reflexivity. Qed.

(** [TestAssignmentAndPartialSolution]: one decision at level 1 is
    added, the level is 1, [Backtrack(0)] empties the trail. *)
Example Backtrack_test :
  let assign :=
    mkAssignment (mkTerm "foo" (mkVersionConstraint "" "" "1.0.0") false) 1 true None in
  let ps := AddAssignment (mkPartialSolution []) assign in
  Assignments ps = [assign]
  ∧ GetDecisionLevel ps = 1
  ∧ Assignments (Backtrack ps 0) = [].
Proof. repeat split; reflexivity. Qed.

(** ** The trail: [AddAssignment], [GetDecisionLevel], [Backtrack] *)

Lemma Backtrack_from_spec (level : Z) :
  ∀ (n : nat) (l : list Assignment),
    length l = n →
    ∃ removed : list Assignment,
      l = Backtrack_from n l level ++ removed
      ∧ Forall (λ a, level < DecisionLevel a) removed
      ∧ ∀ a, last (Backtrack_from n l level) = Some a → DecisionLevel a <= level.
Proof.
  induction n as [|n IH]; intros l Hlen.
  - destruct l; [|discriminate]. exists []. simpl.
    repeat split; [constructor | intros a Ha; discriminate].
  - simpl. destruct (l !! n) as [a|] eqn:Hn.
    + destruct (Z.gtb_spec (DecisionLevel a) level) as [Hgt|Hle].
      * destruct (IH (take n l)) as (removed & Heq & Hall & Hlast).
        { rewrite length_take. lia. }
        exists (removed ++ [a]). split; [|split]; [| |exact Hlast].
        -- rewrite app_assoc, <- Heq, <- (take_S_r _ _ _ Hn).
           symmetry. apply take_ge. lia.
        -- apply Forall_app. split; [exact Hall|]. repeat constructor. exact Hgt.
      * exists []. rewrite app_nil_r. split; [reflexivity|]. split; [constructor|].
        intros b Hb. rewrite last_lookup, Hlen in Hb. simpl in Hb.
        rewrite Hn in Hb. injection Hb as <-. exact Hle.
    + apply lookup_ge_None in Hn. lia.
Qed.

Lemma Backtrack_from_stops (level : Z) (l : list Assignment) (a : Assignment) :
  last l = Some a → DecisionLevel a <= level →
  Backtrack_from (length l) l level = l.
Proof.
  intros Hlast Hle. rewrite last_lookup in Hlast.
  destruct (length l) as [|n] eqn:Hlen; [reflexivity|].
  simpl in *. rewrite Hlast.
  destruct (Z.gtb_spec (DecisionLevel a) level); [lia|reflexivity].
Qed.


(** C9. [Backtrack(level)] keeps a prefix of the trail, unchanged and in
    order, and removes the rest: every removed assignment lies above
    [level], and the kept prefix, when it is not empty, ends at an
    assignment whose decision level is at most [level], which is thus the
    most recent such assignment of the trail. *)
Theorem Backtrack_truncates_to_last_at_most (ps : PartialSolution) (level : Z) :
  ∃ removed : list Assignment,
    Assignments ps = Assignments (Backtrack ps level) ++ removed
    ∧ Forall (λ a, level < DecisionLevel a) removed
    ∧ ∀ a, last (Assignments (Backtrack ps level)) = Some a →
           DecisionLevel a <= level.
Proof.
  unfold Backtrack. simpl. apply Backtrack_from_spec. reflexivity.
Qed.

(** ** Relation of an incompatibility to the partial solution *)

Lemma count_result_nonneg (ps : PartialSolution) r terms : 0 <= count_result ps r terms.
Proof.
  induction terms as [|t rest IH]; simpl; [lia|].
  destruct (SatisfactionResult_eqb _ _); lia.
Qed.

Lemma count_result_total (ps : PartialSolution) terms :
  count_result ps Satisfied terms + count_result ps Contradicted terms
  + count_result ps Inconclusive terms = Z.of_nat (length terms).
Proof.
  induction terms as [|t rest IH]; simpl; [reflexivity|].
  destruct (Satisfies ps t); simpl; lia.
Qed.

Lemma count_result_full (ps : PartialSolution) r terms :
  count_result ps r terms = Z.of_nat (length terms)
  ↔ Forall (λ t, Satisfies ps t = r) terms.
Proof.
  induction terms as [|t rest IH]; simpl.
  - split; [constructor|reflexivity].
  - pose proof (count_result_nonneg ps r rest) as Hn.
    assert (count_result ps r rest <= Z.of_nat (length rest)) as Hb.
    { pose proof (count_result_total ps rest).
      pose proof (count_result_nonneg ps Satisfied rest).
      pose proof (count_result_nonneg ps Contradicted rest).
      pose proof (count_result_nonneg ps Inconclusive rest).
      destruct r; lia. }
    split.
    + intros H. destruct (Satisfies ps t) eqn:Ht; destruct r; simpl in H; try lia;
        (constructor; [exact Ht | apply IH; lia]).
    + intros H. apply Forall_cons in H as [Ht Hrest].
      apply IH in Hrest. rewrite Ht.
      destruct r; simpl; lia.
Qed.

Lemma count_result_positive (ps : PartialSolution) r terms :
  0 < count_result ps r terms ↔ Exists (λ t, Satisfies ps t = r) terms.
Proof.
  induction terms as [|t rest IH]; simpl.
  - split; [lia|]. intros H. inversion H.
  - pose proof (count_result_nonneg ps r rest) as Hn. split.
    + intros H. destruct (Satisfies ps t) eqn:Ht; destruct r; simpl in H;
        first [ by (left; exact Ht) | by (right; apply IH; lia) ].
    + intros H. apply Exists_cons in H as [Ht|Hrest].
      * rewrite Ht. destruct r; simpl; lia.
      * apply IH in Hrest. destruct (SatisfactionResult_eqb _ _); lia.
Qed.

Lemma SatisfiesIncompatibility_count_spec (ps : PartialSolution) terms :
  ∀ satisfiedCount contradictedCount,
    SatisfiesIncompatibility_count ps terms satisfiedCount contradictedCount
    = (satisfiedCount + count_result ps Satisfied terms,
       contradictedCount + count_result ps Contradicted terms).
Proof.
  induction terms as [|t rest IH]; intros a b; simpl.
  - f_equal; lia.
  - destruct (Satisfies ps t); simpl; rewrite IH; f_equal; lia.
Qed.

Lemma AlmostSatisfies_loop_spec (ps : PartialSolution) terms :
  ∀ satisfiedCount unsatisfiedTerm,
    AlmostSatisfies_loop ps terms satisfiedCount unsatisfiedTerm
    = (satisfiedCount + count_result ps Satisfied terms,
       match unsatisfiedTerm with
       | Some t => Some t
       | None => first_inconclusive ps terms
       end).
Proof.
  induction terms as [|t rest IH]; intros a u; simpl.
  - destruct u; f_equal; lia.
  - destruct (Satisfies ps t); simpl; [destruct u| |]; rewrite IH;
      try destruct u; f_equal; lia.
Qed.

Lemma first_inconclusive_none (ps : PartialSolution) terms :
  Forall (λ t, Satisfies ps t = Satisfied) terms → first_inconclusive ps terms = None.
Proof.
  induction 1 as [|t rest Ht _ IH]; simpl; [reflexivity|]. rewrite Ht. exact IH.
Qed.

Lemma only_inconclusive_counts (ps : PartialSolution) t terms :
  (count_result ps Satisfied terms = Z.of_nat (length terms) - 1
   ∧ first_inconclusive ps terms = Some t)
  ↔ only_inconclusive ps t terms.
Proof.
  split.
  - induction terms as [|x rest IH]; simpl; intros [Hc Hf]; [discriminate|].
    destruct (Satisfies ps x) eqn:Hx; simpl in Hc.
    + injection Hf as ->. exists [], rest. repeat split; auto.
      apply count_result_full. lia.
    + destruct IH as (before & after & -> & Ht & Hb & Ha); [split; [lia|exact Hf]|].
      exists (x :: before), after. repeat split; auto.
    + assert (Forall (λ u, Satisfies ps u = Satisfied) rest) as Hall
        by (apply count_result_full; lia).
      rewrite (first_inconclusive_none _ _ Hall) in Hf. discriminate.
  - intros (before & after & -> & Ht & Hb & Ha).
    induction Hb as [|x before Hx _ IH]; simpl.
    + rewrite Ht. simpl. apply count_result_full in Ha. split; [lia|reflexivity].
    + rewrite Hx. simpl. destruct IH as [IH1 IH2]. split; [|exact IH2].
      rewrite IH1. rewrite !length_app. simpl. lia.
Qed.

(** C4. An incompatibility is [Satisfied] iff every term is, it is
    [Contradicted] iff some term is, and [AlmostSatisfies] yields [t]
    iff [t] is its one inconclusive term and every other term is
    satisfied. *)
Theorem incompatibility_relation (ps : PartialSolution) (C : Incompatibility) :
  (SatisfiesIncompatibility ps C = Satisfied
   ↔ Forall (λ t, Satisfies ps t = Satisfied) (Terms C))
  ∧ (SatisfiesIncompatibility ps C = Contradicted
     ↔ Exists (λ t, Satisfies ps t = Contradicted) (Terms C))
  ∧ (∀ t, AlmostSatisfies ps C = Some t ↔ only_inconclusive ps t (Terms C)).
Proof.
  pose proof (count_result_nonneg ps Satisfied (Terms C)) as HnS.
  pose proof (count_result_nonneg ps Contradicted (Terms C)) as HnC.
  pose proof (count_result_nonneg ps Inconclusive (Terms C)) as HnI.
  pose proof (count_result_total ps (Terms C)) as Htot.
  unfold SatisfiesIncompatibility, AlmostSatisfies.
  rewrite SatisfiesIncompatibility_count_spec, AlmostSatisfies_loop_spec.
  rewrite !Z.add_0_l.
  split; [|split].
  - rewrite <- count_result_full.
    destruct (Z.gtb_spec (count_result ps Contradicted (Terms C)) 0);
      destruct (Z.eqb_spec (count_result ps Satisfied (Terms C))
                  (Z.of_nat (length (Terms C))));
      split; intros; try discriminate; try reflexivity; lia.
  - rewrite <- count_result_positive.
    destruct (Z.gtb_spec (count_result ps Contradicted (Terms C)) 0);
      destruct (Z.eqb_spec (count_result ps Satisfied (Terms C))
                  (Z.of_nat (length (Terms C))));
      split; intros; try discriminate; try reflexivity; lia.
  - intros t. rewrite <- only_inconclusive_counts.
    destruct (Z.eqb_spec (count_result ps Satisfied (Terms C))
                (Z.of_nat (length (Terms C)) - 1)) as [He|Hne].
    + destruct (first_inconclusive ps (Terms C)) as [u|];
        split; intros H; try discriminate.
      * injection H as ->. split; [exact He|reflexivity].
      * destruct H as [_ H]. exact H.
      * destruct H as [_ H]. discriminate.
    + split; intros H; [discriminate|]. destruct H as [H _]. contradiction.
Qed.

(** ** Relation of a term to the partial solution *)

Lemma areCompatible_true v1 v2 : areCompatible v1 v2 = true.
Proof. unfold areCompatible. destruct (_ || _); reflexivity. Qed.

Lemma Satisfies_contradiction_false (l : list Assignment) (term : Term) :
  Satisfies_contradiction l term = false.
Proof.
  induction l as [|a rest IH]; simpl; [reflexivity|].
  rewrite areCompatible_true. simpl. rewrite IH.
  destruct (String.eqb _ _); [destruct (negb _)|]; reflexivity.
Qed.

Lemma Satisfies_unfold (ps : PartialSolution) (term : Term) :
  Satisfies ps term =
  if Satisfies_satisfaction (Assignments ps) term then Satisfied else Inconclusive.
Proof. unfold Satisfies. rewrite Satisfies_contradiction_false. reflexivity. Qed.

Lemma Satisfies_never_Contradicted (ps : PartialSolution) (term : Term) :
  Satisfies ps term ≠ Contradicted.
Proof.
  rewrite Satisfies_unfold. destruct (Satisfies_satisfaction _ _); discriminate.
Qed.

(** C5 on the code.  With [foo 1.0.0] decided, the accumulated set of
    [foo] is disjoint from that of the positive term [foo 2.0.0], which
    the specification calls Contradicted; [Satisfies] answers
    [Inconclusive], as it does not return [Contradicted] on any input.
    With [foo any] asserted instead, the accumulated set holds every
    version and is not a subset of [foo 2.0.0]; [Satisfies] answers
    [Satisfied]. *)
Theorem Satisfies_misses_contradiction (version_le : string → string → Prop) :
  let foo1 := mkTerm "foo" (mkVersionConstraint "" "" "1.0.0") false in
  let foo2 := mkTerm "foo" (mkVersionConstraint "" "" "2.0.0") false in
  let foo_any := mkTerm "foo" (mkVersionConstraint "" "" "") false in
  let ps := mkPartialSolution [mkAssignment foo1 0 true None] in
  let ps_any := mkPartialSolution [mkAssignment foo_any 0 false None] in
  (positive_relation version_le ps foo2 Contradicted
   ∧ Satisfies ps foo2 = Inconclusive)
  ∧ (¬ positive_relation version_le ps_any foo2 Satisfied
     ∧ Satisfies ps_any foo2 = Satisfied)
  ∧ ∀ ps' t, Satisfies ps' t ≠ Contradicted.
Proof.
  split; [split; [|reflexivity]|split; [split; [|reflexivity]|]].
  - intros v Hacc Hin.
    specialize (Hacc _ ltac:(apply list_elem_of_here) eq_refl eq_refl).
    unfold contains in *. simpl in *. congruence.
  - intros Hsub. specialize (Hsub "1.0.0").
    assert (contains version_le (mkVersionConstraint "" "" "2.0.0") "1.0.0") as Hin.
    { apply Hsub. intros a Ha _ _. apply list_elem_of_singleton in Ha. subst a.
      unfold contains. simpl. split; left; reflexivity. }
    unfold contains in Hin. simpl in Hin. discriminate.
  - exact Satisfies_never_Contradicted.
Qed.

(** ** The resolution step *)


(** ** Decision making *)

Lemma findMatchingVersion_nonempty s packageName term :
  findMatchingVersion s packageName term ≠ "".
Proof.
  unfold findMatchingVersion, IsSpecific.
  destruct (String.eqb_spec (Specific (Version term)) ""); simpl;
    [discriminate|assumption].
Qed.

Lemma app_singleton_neq {A : Type} (l : list A) (x : A) : l ++ [x] ≠ l.
Proof.
  intros H. apply (f_equal length) in H. rewrite length_app in H. simpl in H. lia.
Qed.

(** C10. [findMatchingVersion] returns the specific version of the term
    when it has one and ["1.0.0"] otherwise, never the empty string; so
    [DecisionMaking] never returns what its no-matching-version branch
    would, and whenever it neither reports completion nor an error it
    has appended a decision on the package it returns. *)
Theorem findMatchingVersion_total_branch_dead (s : Solver) :
  (∀ packageName term,
      findMatchingVersion s packageName term ≠ ""
      ∧ findMatchingVersion s packageName term
        = if IsSpecific (Version term) then Specific (Version term) else "1.0.0")
  ∧ (∀ packageName term, DecisionMaking s ≠ no_version_branch s packageName term)
  ∧ (DSuccess (DecisionMaking s).2 = false →
     Error (DecisionMaking s).2 = "" →
     ∃ version,
       version ≠ ""
       ∧ Assignments (partialSolution (DecisionMaking s).1)
         = Assignments (partialSolution s)
           ++ [mkAssignment
                 (mkTerm (NextPackage (DecisionMaking s).2)
                    (mkVersionConstraint "" "" version) false)
                 (GetDecisionLevel (partialSolution s) + 1) true None]).
Proof.
  split; [|split].
  - intros packageName term. split; [apply findMatchingVersion_nonempty|reflexivity].
  - intros packageName term. unfold DecisionMaking, no_version_branch.
    destruct (String.eqb _ ""); [|destruct (getTermForPackage _ _) as [t|]].
    + intros H. apply (f_equal (λ x, incompatibilities x.1)) in H.
      simpl in H. symmetry in H. exact (app_singleton_neq _ _ H).
    + pose proof (findMatchingVersion_nonempty s (findPackageForDecision s) t) as Hv.
      apply String.eqb_neq in Hv. rewrite Hv.
      intros H. apply (f_equal (λ x, Assignments (partialSolution x.1))) in H.
      simpl in H. exact (app_singleton_neq _ _ H).
    + intros H. apply (f_equal (λ x, incompatibilities x.1)) in H.
      simpl in H. symmetry in H. exact (app_singleton_neq _ _ H).
  - unfold DecisionMaking.
    destruct (String.eqb _ ""); [simpl; discriminate|].
    destruct (getTermForPackage _ _) as [t|]; [|simpl; intros _ H; discriminate].
    pose proof (findMatchingVersion_nonempty s (findPackageForDecision s) t) as Hv.
    pose proof Hv as Hv'. apply String.eqb_neq in Hv'. rewrite Hv'. simpl.
    intros _ _. eexists. split; [exact Hv|reflexivity].
Qed.

(** ** Conflict resolution never learns *)

Lemma findSatisfier_from_none (n : nat) (s : Solver) (incompatibility : Incompatibility) :
  findSatisfier_from n s incompatibility = None.
Proof.
  induction n as [|n IH]; simpl; [reflexivity|].
  destruct (Assignments (partialSolution s) !! n); [exact IH|reflexivity].
Qed.

Lemma resolveConflict_unfold (fuel : nat) (s : Solver) (incompatibility : Incompatibility) :
  resolveConflict (S fuel) s incompatibility =
  if isRootCause s incompatibility
  then Some (backtrackFromConflict s incompatibility, Some incompatibility)
  else Some (s, None).
Proof.
  simpl. unfold findSatisfier. rewrite findSatisfier_from_none. reflexivity.
Qed.

(** ** At most one decision per package *)












Lemma fresh_partialSolution (given : list Incompatibility) :
  ∀ s, partialSolution (foldl AddIncompatibility s given) = partialSolution s.
Proof.
  induction given as [|i rest IH]; intros s; simpl; [reflexivity|].
  rewrite IH. reflexivity.
Qed.

Lemma fresh_rootVersion (given : list Incompatibility) :
  ∀ s, rootVersion (foldl AddIncompatibility s given) = rootVersion s.
Proof.
  induction given as [|i rest IH]; intros s; simpl; [reflexivity|].
  rewrite IH. reflexivity.
Qed.

Lemma fresh_incompatibilities (given : list Incompatibility) :
  ∀ s, incompatibilities (foldl AddIncompatibility s given) = incompatibilities s ++ given.
Proof.
  induction given as [|i rest IH]; intros s; simpl; [rewrite app_nil_r; reflexivity|].
  rewrite IH. simpl. rewrite <- app_assoc. reflexivity.
Qed.

Lemma fresh_rootPackage (given : list Incompatibility) :
  ∀ s, rootPackage (foldl AddIncompatibility s given) = rootPackage s.
Proof.
  induction given as [|i rest IH]; intros s; simpl; [reflexivity|].
  rewrite IH. reflexivity.
Qed.



(** ** One pass of unit propagation, symbolically *)

Lemma satisfies_refl (v : VersionConstraint) : satisfies v v = true.
Proof.
  unfold satisfies. destruct (String.eqb (VersionConstraint_String v) "any");
    [reflexivity|]. apply String.eqb_refl.
Qed.

Lemma Satisfies_head (ps : PartialSolution) (a : Assignment) (rest : list Assignment) :
  Assignments ps = a :: rest → Satisfies ps (ATerm a) = Satisfied.
Proof.
  intros H. rewrite Satisfies_unfold, H. simpl.
  rewrite String.eqb_refl, Bool.eqb_reflx, satisfies_refl. reflexivity.
Qed.

Lemma Satisfies_negative_of_positive (ps : PartialSolution) (t : Term) :
  Negated t = true → Forall plain (Assignments ps) → Satisfies ps t = Inconclusive.
Proof.
  intros Ht Hall. rewrite Satisfies_unfold.
  induction Hall as [|a rest [Ha _] _ IH]; simpl; [reflexivity|].
  rewrite Ha, Ht. simpl. destruct (String.eqb _ _); exact IH.
Qed.

Lemma GetDecisionLevel_plain (l : list Assignment) :
  Forall plain l → GetDecisionLevel (mkPartialSolution l) = 0.
Proof.
  intros Hall. unfold GetDecisionLevel. simpl.
  destruct (last l) as [a|] eqn:Hlast; [|reflexivity].
  apply last_Some_elem_of in Hlast.
  rewrite Forall_forall in Hall. apply Hall in Hlast. apply Hlast.
Qed.

Lemma Backtrack_plain (l : list Assignment) :
  Forall plain l → Backtrack (mkPartialSolution l) 0 = mkPartialSolution l.
Proof.
  intros Hall. unfold Backtrack. simpl. f_equal.
  destruct (last l) as [a|] eqn:Hlast.
  - apply (Backtrack_from_stops 0 l a Hlast).
    apply last_Some_elem_of in Hlast.
    rewrite Forall_forall in Hall. apply Hall in Hlast. destruct Hlast as [_ ->]. lia.
  - rewrite last_lookup in Hlast. destruct l as [|x l]; [reflexivity|].
    simpl in Hlast. apply lookup_ge_None in Hlast. simpl in Hlast. lia.
Qed.

Lemma derive_plain (l : list Assignment) incs root version (t : Term)
  (cause : Incompatibility) :
  Forall plain l →
  derive (mkSolver (mkPartialSolution l) incs root version) t cause
  = mkSolver (mkPartialSolution (l ++ [mkAssignment (negate t) 0 false (Some cause)]))
      incs root version.
Proof.
  intros Hall. unfold derive, set_partialSolution, AddAssignment. simpl.
  rewrite (GetDecisionLevel_plain l Hall). reflexivity.
Qed.

Lemma SatisfiesIncompatibility_one (ps : PartialSolution) (t : Term) cause :
  Satisfies ps t = Satisfied →
  SatisfiesIncompatibility ps (mkIncompatibility [t] cause) = Satisfied
  ∧ AlmostSatisfies ps (mkIncompatibility [t] cause) = None.
Proof.
  intros Ht. unfold SatisfiesIncompatibility, AlmostSatisfies. simpl.
  rewrite Ht. split; reflexivity.
Qed.

Lemma SatisfiesIncompatibility_one_open (ps : PartialSolution) (t : Term) cause :
  Satisfies ps t = Inconclusive →
  SatisfiesIncompatibility ps (mkIncompatibility [t] cause) = Inconclusive
  ∧ AlmostSatisfies ps (mkIncompatibility [t] cause) = Some t.
Proof.
  intros Ht. unfold SatisfiesIncompatibility, AlmostSatisfies. simpl.
  rewrite Ht. split; reflexivity.
Qed.

Lemma SatisfiesIncompatibility_two (ps : PartialSolution) (t u : Term) cause :
  Satisfies ps t = Satisfied → Satisfies ps u = Inconclusive →
  SatisfiesIncompatibility ps (mkIncompatibility [t; u] cause) = Inconclusive
  ∧ AlmostSatisfies ps (mkIncompatibility [t; u] cause) = Some u.
Proof.
  intros Ht Hu. unfold SatisfiesIncompatibility, AlmostSatisfies. simpl.
  rewrite Ht, Hu. split; reflexivity.
Qed.

Lemma UnitPropagation_scan_cons fuel s changed incompatibility rest :
  UnitPropagation_scan fuel s changed (incompatibility :: rest) =
  match SatisfiesIncompatibility (partialSolution s) incompatibility with
  | Satisfied =>
      match resolveConflict fuel s incompatibility with
      | None => ScanOutOfFuel s
      | Some (s1, None) => ScanFailed s1 incompatibility
      | Some (s1, Some resolvedIncompatibility) =>
          match AlmostSatisfies (partialSolution s1) resolvedIncompatibility with
          | Some unsatisfiedTerm =>
              UnitPropagation_scan fuel
                (derive s1 unsatisfiedTerm resolvedIncompatibility)
                {[ Package unsatisfiedTerm ]} rest
          | None => UnitPropagation_scan fuel s1 changed rest
          end
      end
  | Inconclusive =>
      match AlmostSatisfies (partialSolution s) incompatibility with
      | Some unsatisfiedTerm =>
          UnitPropagation_scan fuel
            (derive s unsatisfiedTerm incompatibility)
            (changed ∪ {[ Package unsatisfiedTerm ]}) rest
      | None => UnitPropagation_scan fuel s changed rest
      end
  | Contradicted => UnitPropagation_scan fuel s changed rest
  end.
Proof. reflexivity. Qed.

Lemma UnitPropagation_loop_unfold fuel rnd k s changed :
  UnitPropagation_loop fuel rnd k s changed =
  match pick rnd k changed with
  | None => Returned (mkUnitPropagationResult true None, k) s
  | Some currentPackage =>
      match fuel with
      | O => OutOfFuel s
      | S fuel' =>
          match UnitPropagation_scan (S fuel') s (changed ∖ {[ currentPackage ]})
                  (rev (getIncompatibilitiesForPackage s currentPackage)) with
          | ScanFailed s' conflict =>
              Returned (mkUnitPropagationResult false (Some conflict), S k) s'
          | ScanOutOfFuel s' => OutOfFuel s'
          | ScanDone s' changed' => UnitPropagation_loop fuel' rnd (S k) s' changed'
          end
      end
  end.
Proof. destruct fuel; reflexivity. Qed.

(** An almost-satisfied incompatibility: its open term is derived, the
    package joins [changed], the scan goes on. *)
Lemma scan_derives fuel (l : list Assignment) incs root version changed
  (incompatibility : Incompatibility) (t : Term) (todo : list Incompatibility) :
  Forall plain l →
  SatisfiesIncompatibility (mkPartialSolution l) incompatibility = Inconclusive →
  AlmostSatisfies (mkPartialSolution l) incompatibility = Some t →
  UnitPropagation_scan fuel (mkSolver (mkPartialSolution l) incs root version) changed
    (incompatibility :: todo)
  = UnitPropagation_scan fuel
      (mkSolver
         (mkPartialSolution (l ++ [mkAssignment (negate t) 0 false (Some incompatibility)]))
         incs root version)
      (changed ∪ {[ Package t ]}) todo.
Proof.
  intros Hall Hs Ha. rewrite UnitPropagation_scan_cons. simpl partialSolution.
  rewrite Hs, Ha, (derive_plain _ _ _ _ _ _ Hall). reflexivity.
Qed.

(** A conflict that is a root cause: on a trail wholly at level 0 the
    solver is left as it is and the scan goes on. *)
Lemma scan_passes_root_cause fuel (l : list Assignment) incs root version changed
  (t : Term) cause (todo : list Incompatibility) :
  Forall plain l →
  Satisfies (mkPartialSolution l) t = Satisfied →
  Package t = root → Negated t = false →
  UnitPropagation_scan (S fuel) (mkSolver (mkPartialSolution l) incs root version)
    changed (mkIncompatibility [t] cause :: todo)
  = UnitPropagation_scan (S fuel) (mkSolver (mkPartialSolution l) incs root version)
      changed todo.
Proof.
  intros Hall Ht Hp Hn. rewrite UnitPropagation_scan_cons, resolveConflict_unfold.
  simpl partialSolution.
  destruct (SatisfiesIncompatibility_one _ t cause Ht) as [-> Ha].
  unfold isRootCause. simpl. rewrite Hp, String.eqb_refl, Hn. simpl.
  unfold backtrackFromConflict, determineBacktrackLevel, set_partialSolution. simpl.
  rewrite (Backtrack_plain l Hall), Ha. reflexivity.
Qed.

Lemma pick_singleton rnd k (p : string) : pick rnd k {[ p ]} = Some p.
Proof.
  unfold pick. rewrite elements_singleton. cbn [length].
  rewrite Nat.mod_1_r. reflexivity.
Qed.

Lemma pick_elem rnd k (changed : gset string) :
  changed ≠ ∅ → ∃ p, pick rnd k changed = Some p ∧ p ∈ changed.
Proof.
  intros Hne. unfold pick.
  destruct (elements changed) as [|x keys] eqn:He.
  - apply elements_empty_inv in He. apply leibniz_equiv in He. contradiction.
  - assert (rnd k `mod` length (x :: keys) < length (x :: keys))%nat as Hlt
      by (apply Nat.mod_upper_bound; discriminate).
    destruct (lookup_lt_is_Some_2 _ _ Hlt) as [p Hp].
    exists p. split; [exact Hp|].
    apply elem_of_elements. rewrite He. eapply list_elem_of_lookup_2. exact Hp.
Qed.

(** ** A solver given nothing but its root *)








(** ** The conflict test of the repository *)

Lemma conflict_state_plain rest :
  Forall plain rest → Forall plain (rootAssignment "foo" "1.0.0" :: rest).
Proof. intros H. constructor; [split; reflexivity|exact H]. Qed.

Lemma conflict_scan_dependency fuel rest changed (todo : list Incompatibility) :
  Forall plain rest →
  UnitPropagation_scan fuel (conflict_state rest) changed
    (rootIncompatibility "foo" "1.0.0" :: todo)
  = UnitPropagation_scan fuel
      (conflict_state (rest ++ [dependencyDerivation "foo" "1.0.0"]))
      (changed ∪ {[ "dependency" ]}) todo.
Proof.
  intros Hrest. pose proof (conflict_state_plain rest Hrest) as Hall.
  unfold conflict_state, rootIncompatibility.
  destruct (SatisfiesIncompatibility_two
              (mkPartialSolution (rootAssignment "foo" "1.0.0" :: rest))
              (rootTerm "foo" "1.0.0") dependencyTerm None) as [Hs Ha].
  { apply (Satisfies_head _ (rootAssignment "foo" "1.0.0") rest). reflexivity. }
  { apply Satisfies_negative_of_positive; [reflexivity|exact Hall]. }
  rewrite (scan_derives _ _ _ _ _ _ _ _ _ Hall Hs Ha). reflexivity.
Qed.

Lemma conflict_scan_inc2 fuel rest changed (todo : list Incompatibility) :
  Forall plain rest →
  UnitPropagation_scan fuel (conflict_state rest) changed (conflict_inc2 :: todo)
  = UnitPropagation_scan fuel (conflict_state (rest ++ [fooDerivation]))
      (changed ∪ {[ "foo" ]}) todo.
Proof.
  intros Hrest. pose proof (conflict_state_plain rest Hrest) as Hall.
  unfold conflict_state, conflict_inc2.
  destruct (SatisfiesIncompatibility_one_open
              (mkPartialSolution (rootAssignment "foo" "1.0.0" :: rest))
              (mkTerm "foo" (mkVersionConstraint "" "" "1.0.0") true) None) as [Hs Ha].
  { apply Satisfies_negative_of_positive; [reflexivity|exact Hall]. }
  rewrite (scan_derives _ _ _ _ _ _ _ _ _ Hall Hs Ha). reflexivity.
Qed.

Lemma conflict_scan_inc1 fuel rest changed (todo : list Incompatibility) :
  Forall plain rest →
  UnitPropagation_scan (S fuel) (conflict_state rest) changed (conflict_inc1 :: todo)
  = UnitPropagation_scan (S fuel) (conflict_state rest) changed todo.
Proof.
  intros Hrest. pose proof (conflict_state_plain rest Hrest) as Hall.
  unfold conflict_state, conflict_inc1.
  apply scan_passes_root_cause; [exact Hall| |reflexivity|reflexivity].
  apply (Satisfies_head _ (rootAssignment "foo" "1.0.0") rest). reflexivity.
Qed.

Lemma plain_dependencyDerivation root version : plain (dependencyDerivation root version).
Proof. split; reflexivity. Qed.

Lemma plain_fooDerivation : plain fooDerivation.
Proof. split; reflexivity. Qed.

Lemma conflict_loop_runs_on rnd fuel :
  ∀ k rest (changed : gset string),
    Forall plain rest →
    changed ≠ ∅ → changed ⊆ {[ "foo"; "dependency" ]} →
    ∃ s', UnitPropagation_loop fuel rnd k (conflict_state rest) changed = OutOfFuel s'.
Proof.
  induction fuel as [|fuel IH]; intros k rest changed Hrest Hne Hsub;
    rewrite UnitPropagation_loop_unfold;
    destruct (pick_elem rnd k changed Hne) as (p & -> & Hp).
  - eexists. reflexivity.
  - assert (p = "foo" ∨ p = "dependency") as [-> | ->] by set_solver.
    + change (rev (getIncompatibilitiesForPackage (conflict_state rest) "foo"))
        with [rootIncompatibility "foo" "1.0.0"; conflict_inc2; conflict_inc1].
      rewrite conflict_scan_dependency by exact Hrest.
      rewrite conflict_scan_inc2
        by (apply Forall_app; split; [exact Hrest|]; repeat constructor).
      rewrite conflict_scan_inc1
        by (repeat (apply Forall_app; split); [exact Hrest| |]; repeat constructor).
      cbn [UnitPropagation_scan]. apply IH.
      * repeat (apply Forall_app; split); [exact Hrest| |]; repeat constructor.
      * apply (non_empty_inhabited_L "dependency"). set_solver.
      * within_foo_dependency Hsub.
    + change (rev (getIncompatibilitiesForPackage (conflict_state rest) "dependency"))
        with [rootIncompatibility "foo" "1.0.0"].
      rewrite conflict_scan_dependency by exact Hrest.
      cbn [UnitPropagation_scan]. apply IH.
      * apply Forall_app; split; [exact Hrest|]. repeat constructor.
      * apply (non_empty_inhabited_L "dependency"). set_solver.
      * within_foo_dependency Hsub.
Qed.

Lemma UnitPropagation_scan_fails_off_root fuel todo :
  ∀ s changed s' conflict,
    UnitPropagation_scan fuel s changed todo = ScanFailed s' conflict →
    isRootCause s' conflict = false.
Proof.
  induction todo as [|incompatibility rest IH]; intros s changed s' conflict;
    [discriminate|].
  rewrite UnitPropagation_scan_cons.
  destruct (SatisfiesIncompatibility (partialSolution s) incompatibility).
  - destruct (AlmostSatisfies (partialSolution s) incompatibility); apply IH.
  - destruct fuel as [|fuel]; [discriminate|].
    rewrite resolveConflict_unfold.
    destruct (isRootCause s incompatibility) eqn:Hroot.
    + destruct (AlmostSatisfies _ incompatibility); apply IH.
    + intros [= <- <-]. exact Hroot.
  - apply IH.
Qed.

Lemma UnitPropagation_loop_fails_off_root rnd fuel :
  ∀ k s changed conflict k' s',
    UnitPropagation_loop fuel rnd k s changed
    = Returned (mkUnitPropagationResult false (Some conflict), k') s' →
    isRootCause s' conflict = false.
Proof.
  induction fuel as [|fuel IH]; intros k s changed conflict k' s';
    rewrite UnitPropagation_loop_unfold;
    destruct (pick rnd k changed) as [currentPackage|]; try discriminate.
  destruct (UnitPropagation_scan _ _ _ _) as [s1 c1|s1 changed1|s1] eqn:Hscan;
    [|apply IH|discriminate].
  intros [= <- <- <-]. eapply UnitPropagation_scan_fails_off_root. exact Hscan.
Qed.

(** C6 on the code.  A root cause makes [resolveConflict] return the
    incompatibility itself, not nil, so unit propagation does not report
    a failure: the conflict of a failed propagation is never a root
    cause.  On the input of [TestSolver_Solve_Conflict], whose only
    conflict is the root cause [{foo 1.0.0}], [Solve] is still running
    after any number of steps, in whatever order the maps are iterated:
    it returns neither the error the test expects nor anything else. *)
Theorem Solve_survives_root_cause :
  (∀ fuel s cause,
      resolveConflict (S fuel) s (mkIncompatibility [] cause)
      = Some (backtrackFromConflict s (mkIncompatibility [] cause),
              Some (mkIncompatibility [] cause)))
  ∧ (∀ fuel s version cause,
        let C := mkIncompatibility
                   [mkTerm (rootPackage s) version false] cause in
        resolveConflict (S fuel) s C = Some (backtrackFromConflict s C, Some C))
  ∧ (∀ fuel rnd k s packageName conflict k' s',
        UnitPropagation fuel rnd k s packageName
        = Returned (mkUnitPropagationResult false (Some conflict), k') s' →
        isRootCause s' conflict = false)
  ∧ ∀ fuel rnd, ∃ s', Solve fuel rnd conflict_test_solver = OutOfFuel s'.
Proof.
  split; [|split; [|split]].
  - intros fuel s cause. rewrite resolveConflict_unfold. reflexivity.
  - intros fuel s version cause C. rewrite resolveConflict_unfold.
    unfold isRootCause, C. simpl. rewrite String.eqb_refl. reflexivity.
  - intros fuel rnd k s packageName conflict k' s'.
    apply UnitPropagation_loop_fails_off_root.
  - intros fuel rnd. unfold Solve.
    change (initializeRootPackage conflict_test_solver) with (conflict_state []).
    destruct fuel as [|fuel]; [eexists; reflexivity|].
    cbn [Solve_loop]. unfold Solve_iteration, UnitPropagation.
    destruct (conflict_loop_runs_on rnd (S fuel) 0 [] {[ "foo" ]}) as [s' Hs'];
      [constructor|apply (non_empty_inhabited_L "foo"); set_solver|set_solver|].
    change (rootPackage (conflict_state [])) with "foo".
    rewrite Hs'. eexists. reflexivity.
Qed.

(** ** Conflicts met during a solve *)

(** C1 on the code.  [resolveConflict] returns the conflict itself when
    it is a root cause and nil otherwise: it never learns.  On
    [excluded_solver] the first pass of [Solve] derives [dependency
    >=1.0.0] and meets the conflict [{root 1.0.0, dependency any}];
    [resolveConflict] returns nil, leaves the trail as it is, and [Solve]
    fails.  On the conflict test the root cause [{foo 1.0.0}] is handed
    back; it is still satisfied by the trail, not almost satisfied, and
    derives nothing. *)
Theorem resolveConflict_learns_nothing :
  (∀ fuel s C,
      resolveConflict (S fuel) s C
      = if isRootCause s C
        then Some (backtrackFromConflict s C, Some C)
        else Some (s, None))
  ∧ (let at_conflict :=
       mkSolver
         (mkPartialSolution
            [rootAssignment "root" "1.0.0"; dependencyDerivation "root" "1.0.0"])
         [excluded_inc; rootIncompatibility "root" "1.0.0"] "root" "1.0.0" in
     SatisfiesIncompatibility (partialSolution at_conflict) excluded_inc = Satisfied
     ∧ resolveConflict 1 at_conflict excluded_inc = Some (at_conflict, None)
     ∧ ∀ rnd, Solve 1 rnd excluded_solver
              = Returned (SolveErr "version solving failed: conflict detected")
                  at_conflict)
  ∧ (let at_conflict :=
       conflict_state [dependencyDerivation "foo" "1.0.0"; fooDerivation] in
     SatisfiesIncompatibility (partialSolution at_conflict) conflict_inc1 = Satisfied
     ∧ resolveConflict 1 at_conflict conflict_inc1
       = Some (at_conflict, Some conflict_inc1)
     ∧ AlmostSatisfies (partialSolution at_conflict) conflict_inc1 = None).
Proof.
  split; [exact resolveConflict_unfold|]. split.
  - intros at_conflict. split; [reflexivity|]. split; [reflexivity|].
    intros rnd. unfold Solve. cbn [Solve_loop]. unfold Solve_iteration, UnitPropagation.
    rewrite UnitPropagation_loop_unfold.
    change (rootPackage (initializeRootPackage excluded_solver)) with "root".
    rewrite pick_singleton. vm_compute. reflexivity.
  - intros at_conflict. repeat split; reflexivity.
Qed.




(** * Further properties of the code *)

(** ** Lookup on the trail *)

Lemma GetAssignmentByPackage_from_app (n : nat) (l k : list Assignment) (pkg : string) :
  (n ≤ length l)%nat →
  GetAssignmentByPackage_from n (l ++ k) pkg = GetAssignmentByPackage_from n l pkg.
Proof.
  induction n as [|n IH]; intros Hn; simpl; [reflexivity|].
  rewrite lookup_app_l by lia. rewrite IH by lia. reflexivity.
Qed.

Lemma GetAssignmentByPackage_snoc (l : list Assignment) (a : Assignment) (pkg : string) :
  GetAssignmentByPackage (mkPartialSolution (l ++ [a])) pkg =
  if String.eqb (Package (ATerm a)) pkg then Some a
  else GetAssignmentByPackage (mkPartialSolution l) pkg.
Proof.
  unfold GetAssignmentByPackage. simpl Assignments.
  rewrite length_app, Nat.add_1_r. simpl.
  rewrite lookup_app_r, Nat.sub_diag by lia. simpl.
  rewrite GetAssignmentByPackage_from_app by lia. reflexivity.
Qed.

Lemma GetAssignmentByPackage_latest (l : list Assignment) (pkg : string) :
  match GetAssignmentByPackage (mkPartialSolution l) pkg with
  | Some b =>
      ∃ before after,
        l = before ++ b :: after
        ∧ Package (ATerm b) = pkg
        ∧ Forall (λ c, Package (ATerm c) ≠ pkg) after
  | None => Forall (λ c, Package (ATerm c) ≠ pkg) l
  end.
Proof.
  induction l as [|a l IH] using rev_ind; [constructor|].
  rewrite GetAssignmentByPackage_snoc.
  destruct (String.eqb_spec (Package (ATerm a)) pkg) as [Heq|Hne].
  - exists l, []. repeat split; [exact Heq|constructor].
  - destruct (GetAssignmentByPackage (mkPartialSolution l) pkg) as [b|].
    + destruct IH as (before & after & -> & Hb & Hafter).
      exists before, (after ++ [a]). rewrite <- app_assoc. repeat split; [exact Hb|].
      apply Forall_app. split; [exact Hafter|]. repeat constructor. exact Hne.
    + apply Forall_app. split; [exact IH|]. repeat constructor. exact Hne.
Qed.

(** X1. [GetAssignmentByPackage] returns the latest assignment on the
    package: the one just added for its own package, the earlier answer
    for any other package; an answer is an entry of the trail on that
    package with no later entry on it, and there is none exactly when
    the trail has no entry on the package. *)
Theorem GetAssignmentByPackage_lookup (ps : PartialSolution) (a : Assignment) :
  GetAssignmentByPackage (AddAssignment ps a) (Package (ATerm a)) = Some a
  ∧ (∀ pkg, pkg ≠ Package (ATerm a) →
       GetAssignmentByPackage (AddAssignment ps a) pkg = GetAssignmentByPackage ps pkg)
  ∧ (∀ pkg b, GetAssignmentByPackage ps pkg = Some b →
       ∃ before after,
         Assignments ps = before ++ b :: after
         ∧ Package (ATerm b) = pkg
         ∧ Forall (λ c, Package (ATerm c) ≠ pkg) after)
  ∧ (∀ pkg, GetAssignmentByPackage ps pkg = None
            ↔ Forall (λ c, Package (ATerm c) ≠ pkg) (Assignments ps)).
Proof.
  destruct ps as [l]. unfold AddAssignment. simpl Assignments.
  split; [|split; [|split]].
  - rewrite GetAssignmentByPackage_snoc, String.eqb_refl. reflexivity.
  - intros pkg Hne. rewrite GetAssignmentByPackage_snoc.
    destruct (String.eqb_spec (Package (ATerm a)) pkg); [congruence|reflexivity].
  - intros pkg b Hb. pose proof (GetAssignmentByPackage_latest l pkg) as H.
    rewrite Hb in H. exact H.
  - intros pkg. pose proof (GetAssignmentByPackage_latest l pkg) as H. split.
    + intros Hn. rewrite Hn in H. exact H.
    + intros Hall. destruct (GetAssignmentByPackage _ pkg) as [b|]; [|reflexivity].
      destruct H as (before & after & -> & Hb & _).
      apply Forall_app in Hall as [_ Hall]. apply Forall_cons in Hall as [Hc _].
      contradiction.
Qed.

(** ** Backtracking *)

Lemma Backtrack_snoc (l : list Assignment) (x : Assignment) (level : Z) :
  Backtrack (mkPartialSolution (l ++ [x])) level =
  if DecisionLevel x >? level then Backtrack (mkPartialSolution l) level
  else mkPartialSolution (l ++ [x]).
Proof.
  unfold Backtrack. simpl Assignments. rewrite length_app, Nat.add_1_r. simpl.
  rewrite lookup_app_r, Nat.sub_diag by lia. simpl.
  destruct (DecisionLevel x >? level); [|reflexivity].
  rewrite take_app_length. reflexivity.
Qed.

(** X2. Backtracking twice is backtracking once to the lower of the two
    levels; in particular [Backtrack] is idempotent. *)
Theorem Backtrack_twice (ps : PartialSolution) (level1 level2 : Z) :
  Backtrack (Backtrack ps level1) level2 = Backtrack ps (Z.min level1 level2)
  ∧ Backtrack (Backtrack ps level1) level1 = Backtrack ps level1.
Proof.
  assert (∀ l a b, Backtrack (Backtrack (mkPartialSolution l) a) b
                   = Backtrack (mkPartialSolution l) (Z.min a b)) as H.
  { intros l a b. induction l as [|x l IH] using rev_ind; [reflexivity|].
    rewrite !Backtrack_snoc.
    destruct (Z.gtb_spec (DecisionLevel x) a) as [Ha|Ha];
      destruct (Z.gtb_spec (DecisionLevel x) (Z.min a b)) as [Hm|Hm];
      try lia; [exact IH| |].
    - rewrite Backtrack_snoc.
      destruct (Z.gtb_spec (DecisionLevel x) b); [|lia].
      f_equal. lia.
    - rewrite Backtrack_snoc.
      destruct (Z.gtb_spec (DecisionLevel x) b); [lia|reflexivity]. }
  destruct ps as [l]. split; [apply H|].
  rewrite H. f_equal. lia.
Qed.

Lemma Backtrack_to_current_level (l : list Assignment) :
  Backtrack (mkPartialSolution l) (GetDecisionLevel (mkPartialSolution l))
  = mkPartialSolution l.
Proof.
  destruct l as [|x l] using rev_ind; [reflexivity|].
  rewrite Backtrack_snoc. unfold GetDecisionLevel. simpl Assignments.
  rewrite last_snoc. destruct (Z.gtb_spec (DecisionLevel x) (DecisionLevel x)); [lia|].
  reflexivity.
Qed.

(** X3. After [Backtrack(level)] the current decision level is at most
    [level] (0 on an emptied trail), and backtracking to the current
    decision level changes nothing. *)
Theorem Backtrack_bounds_level (ps : PartialSolution) (level : Z) :
  GetDecisionLevel (Backtrack ps level) <= Z.max level 0
  ∧ Backtrack ps (GetDecisionLevel ps) = ps.
Proof.
  destruct ps as [l]. split.
  - destruct (Backtrack_from_spec level (length l) l eq_refl) as (_ & _ & _ & Hlast).
    unfold GetDecisionLevel, Backtrack. simpl Assignments.
    destruct (last _) as [a|]; [|lia]. specialize (Hlast a eq_refl). lia.
  - apply Backtrack_to_current_level.
Qed.

Lemma nondecreasing_snoc (l : list Assignment) (x : Assignment) :
  nondecreasing (l ++ [x]) →
  nondecreasing l ∧ Forall (λ a, DecisionLevel a <= DecisionLevel x) l.
Proof.
  intros H. split.
  - intros i j a b Hij Ha Hb.
    apply (H i j a b Hij); apply lookup_app_l_Some; assumption.
  - apply Forall_forall. intros a Ha.
    apply list_elem_of_lookup in Ha as [i Hi].
    apply (H i (length l) a x).
    + apply lookup_lt_Some in Hi. lia.
    + apply lookup_app_l_Some. exact Hi.
    + rewrite lookup_app_r, Nat.sub_diag by lia. reflexivity.
Qed.

(** X4. On a trail whose decision levels never decrease, [Backtrack]
    removes exactly the assignments above the level, as its comment
    says. *)
Theorem Backtrack_keeps_at_most (ps : PartialSolution) (level : Z) :
  nondecreasing (Assignments ps) →
  Assignments (Backtrack ps level) = at_most level (Assignments ps).
Proof.
  destruct ps as [l].
  change (nondecreasing l →
          Assignments (Backtrack (mkPartialSolution l) level) = at_most level l).
  unfold at_most.
  induction l as [|x l IH] using rev_ind; intros Hsorted; [reflexivity|].
  apply nondecreasing_snoc in Hsorted as [Hl Hx].
  rewrite Backtrack_snoc, List.filter_app. simpl.
  destruct (Z.gtb_spec (DecisionLevel x) level) as [Hgt|Hle];
    destruct (Z.leb_spec (DecisionLevel x) level); try lia.
  - rewrite app_nil_r. apply IH. exact Hl.
  - simpl Assignments. f_equal.
    clear IH Hl. induction Hx as [|a l Ha _ IH]; simpl; [reflexivity|].
    destruct (Z.leb_spec (DecisionLevel a) level); [|lia]. f_equal. exact IH.
Qed.

(** X4 on a trail at levels 0, 0, 1, 2. *)
Lemma Backtrack_keeps_at_most_witness :
  let at_level := λ n : Z, mkAssignment (rootTerm "p" "1") n false None in
  let ps := mkPartialSolution [at_level 0; at_level 0; at_level 1; at_level 2] in
  Assignments (Backtrack ps 1) = at_most 1 (Assignments ps).
Proof.
  intros at_level ps. apply (Backtrack_keeps_at_most ps 1).
  intros i j a b Hij Ha Hb.
  destruct i as [|[|[|[|i]]]]; try discriminate;
    destruct j as [|[|[|[|j]]]]; try discriminate; try lia;
    injection Ha as <-; injection Hb as <-; simpl; lia.
Defined.

(** ** The comparison of version constraints *)

(** X5. [satisfies] is reflexive and symmetric, a constraint printed
    [any] satisfies and is satisfied by every constraint, and
    [satisfies] is not transitive: [1.0.0] satisfies [any], [any]
    satisfies [2.0.0], [1.0.0] does not satisfy [2.0.0]. *)
Theorem satisfies_symmetric :
  (∀ v, satisfies v v = true)
  ∧ (∀ v1 v2, satisfies v1 v2 = satisfies v2 v1)
  ∧ (∀ v1 v2, VersionConstraint_String v1 = "any" →
              satisfies v1 v2 = true ∧ satisfies v2 v1 = true)
  ∧ (∃ v1 v2 v3,
        satisfies v1 v2 = true ∧ satisfies v2 v3 = true ∧ satisfies v1 v3 = false).
Proof.
  split; [exact satisfies_refl|]. split; [|split].
  - intros v1 v2. unfold satisfies.
    destruct (String.eqb (VersionConstraint_String v2) "any");
      destruct (String.eqb (VersionConstraint_String v1) "any"); try reflexivity.
    apply String.eqb_sym.
  - intros v1 v2 Hany. unfold satisfies. rewrite Hany. simpl.
    destruct (String.eqb (VersionConstraint_String v2) "any"); split; reflexivity.
  - exists (mkVersionConstraint "" "" "1.0.0"), (mkVersionConstraint "" "" ""),
      (mkVersionConstraint "" "" "2.0.0").
    repeat split; reflexivity.
Qed.

(** ** The relation of a term, as the loops compute it *)

Lemma Satisfies_satisfaction_app (l k : list Assignment) (t : Term) :
  Satisfies_satisfaction (l ++ k) t
  = Satisfies_satisfaction l t || Satisfies_satisfaction k t.
Proof.
  induction l as [|a l IH]; simpl; [reflexivity|].
  destruct (String.eqb _ _); [|exact IH].
  destruct (Bool.eqb _ _); [|exact IH].
  destruct (satisfies _ _); [reflexivity|exact IH].
Qed.

Lemma Satisfies_satisfaction_iff (l : list Assignment) (t : Term) :
  Satisfies_satisfaction l t = true
  ↔ ∃ a, a ∈ l
         ∧ Package (ATerm a) = Package t
         ∧ Negated (ATerm a) = Negated t
         ∧ satisfies (Version (ATerm a)) (Version t) = true.
Proof.
  induction l as [|x l IH]; simpl.
  - split; [discriminate|]. intros (a & Ha & _). apply elem_of_nil in Ha. contradiction.
  - split.
    + destruct (String.eqb_spec (Package (ATerm x)) (Package t)) as [Hp|Hp];
        [destruct (Bool.eqb (Negated (ATerm x)) (Negated t)) eqn:Hn;
         [destruct (satisfies (Version (ATerm x)) (Version t)) eqn:Hs|]|].
      * intros _. exists x. apply Bool.eqb_prop in Hn.
        repeat split; [apply list_elem_of_here| | |]; assumption.
      * intros H. apply IH in H as (a & Ha & H). exists a.
        split; [apply list_elem_of_further; exact Ha|exact H].
      * intros H. apply IH in H as (a & Ha & H). exists a.
        split; [apply list_elem_of_further; exact Ha|exact H].
      * intros H. apply IH in H as (a & Ha & H). exists a.
        split; [apply list_elem_of_further; exact Ha|exact H].
    + intros (a & Ha & Hp & Hn & Hs). apply elem_of_cons in Ha as [->|Ha].
      * rewrite Hp, String.eqb_refl, Hn, Bool.eqb_reflx, Hs. reflexivity.
      * assert (Satisfies_satisfaction l t = true) as -> by (apply IH; eauto).
        destruct (String.eqb (Package (ATerm x)) (Package t)); [|reflexivity].
        destruct (Bool.eqb (Negated (ATerm x)) (Negated t)); [|reflexivity].
        destruct (satisfies (Version (ATerm x)) (Version t)); reflexivity.
Qed.

(** X6. A term is [Satisfied] exactly when some assignment of the trail
    is on its package, has its polarity and a constraint that
    [satisfies] its own; a term that is satisfied stays so whatever is
    added to the trail; and an assignment of the other polarity or on
    another package changes the relation of no term. *)
Theorem Satisfies_by_one_assignment (ps : PartialSolution) (t : Term) :
  (Satisfies ps t = Satisfied
   ↔ ∃ a, a ∈ Assignments ps
          ∧ Package (ATerm a) = Package t
          ∧ Negated (ATerm a) = Negated t
          ∧ satisfies (Version (ATerm a)) (Version t) = true)
  ∧ (∀ a, Satisfies ps t = Satisfied → Satisfies (AddAssignment ps a) t = Satisfied)
  ∧ (∀ a, Package (ATerm a) ≠ Package t ∨ Negated (ATerm a) ≠ Negated t →
          Satisfies (AddAssignment ps a) t = Satisfies ps t).
Proof.
  rewrite Satisfies_unfold, <- Satisfies_satisfaction_iff. split; [|split].
  - destruct (Satisfies_satisfaction _ _); split; congruence.
  - intros a. rewrite Satisfies_unfold. unfold AddAssignment. simpl Assignments.
    rewrite Satisfies_satisfaction_app.
    destruct (Satisfies_satisfaction (Assignments ps) t); [reflexivity|discriminate].
  - intros a Ha. rewrite Satisfies_unfold. unfold AddAssignment. simpl Assignments.
    rewrite Satisfies_satisfaction_app. simpl.
    destruct (String.eqb_spec (Package (ATerm a)) (Package t)) as [Hp|Hp];
      [|rewrite orb_false_r; reflexivity].
    destruct (Bool.eqb (Negated (ATerm a)) (Negated t)) eqn:Hn;
      [|rewrite orb_false_r; reflexivity].
    apply Bool.eqb_prop in Hn. destruct Ha; contradiction.
Qed.

(** ** A derivation does not discharge its cause *)

Lemma AlmostSatisfies_only_inconclusive (ps : PartialSolution) (C : Incompatibility)
  (t : Term) :
  AlmostSatisfies ps C = Some t ↔ only_inconclusive ps t (Terms C).
Proof.
  unfold AlmostSatisfies. rewrite AlmostSatisfies_loop_spec, Z.add_0_l.
  rewrite <- only_inconclusive_counts.
  destruct (Z.eqb_spec (count_result ps Satisfied (Terms C))
              (Z.of_nat (length (Terms C)) - 1)) as [He|Hne].
  - destruct (first_inconclusive ps (Terms C)) as [u|]; split; intros H;
      try discriminate.
    + injection H as ->. split; [exact He|reflexivity].
    + destruct H as [_ H]. exact H.
    + destruct H as [_ H]. discriminate.
  - split; intros H; [discriminate|]. destruct H as [H _]. contradiction.
Qed.

Lemma count_result_Contradicted (ps : PartialSolution) (terms : list Term) :
  count_result ps Contradicted terms = 0.
Proof.
  induction terms as [|t rest IH]; simpl; [reflexivity|]. rewrite IH.
  pose proof (Satisfies_never_Contradicted ps t).
  destruct (Satisfies ps t); simpl; [reflexivity|reflexivity|contradiction].
Qed.

Lemma only_inconclusive_Inconclusive (ps : PartialSolution) (C : Incompatibility)
  (t : Term) :
  only_inconclusive ps t (Terms C) → SatisfiesIncompatibility ps C = Inconclusive.
Proof.
  intros H. apply only_inconclusive_counts in H as [Hc _].
  unfold SatisfiesIncompatibility.
  rewrite SatisfiesIncompatibility_count_spec, count_result_Contradicted, Hc. simpl.
  destruct (Z.eqb_spec (0 + (Z.of_nat (length (Terms C)) - 1))
              (Z.of_nat (length (Terms C)))); [lia|reflexivity].
Qed.

Lemma Satisfied_not_almost (ps : PartialSolution) (C : Incompatibility) :
  SatisfiesIncompatibility ps C = Satisfied → AlmostSatisfies ps C = None.
Proof.
  intros H. destruct (AlmostSatisfies ps C) as [t|] eqn:Ha; [|reflexivity].
  apply AlmostSatisfies_only_inconclusive, only_inconclusive_Inconclusive in Ha.
  congruence.
Qed.

(** X7. Deriving the negation of the open term of an almost-satisfied
    incompatibility leaves that incompatibility almost satisfied, with
    the same open term: the derivation is never seen as contradicting
    it, and the next scan of the incompatibility derives it again. *)
Theorem derive_keeps_almost_satisfied (s : Solver) (C : Incompatibility) (t : Term) :
  AlmostSatisfies (partialSolution s) C = Some t →
  AlmostSatisfies (partialSolution (derive s t C)) C = Some t
  ∧ SatisfiesIncompatibility (partialSolution (derive s t C)) C = Inconclusive.
Proof.
  intros H. apply AlmostSatisfies_only_inconclusive in H.
  assert (only_inconclusive (partialSolution (derive s t C)) t (Terms C)) as H'.
  { destruct H as (before & after & Heq & Ht & Hb & Ha).
    assert (∀ u, Satisfies (partialSolution s) u = Satisfied →
                 Satisfies (partialSolution (derive s t C)) u = Satisfied) as Hmono.
    { intros u Hu. unfold derive. simpl partialSolution.
      rewrite Satisfies_unfold in Hu |- *. unfold AddAssignment. simpl Assignments.
      rewrite Satisfies_satisfaction_app.
      destruct (Satisfies_satisfaction _ u); [reflexivity|discriminate]. }
    exists before, after. split; [exact Heq|]. split; [|split].
    - unfold derive. simpl partialSolution.
      rewrite Satisfies_unfold in Ht |- *. unfold AddAssignment. simpl Assignments.
      rewrite Satisfies_satisfaction_app. simpl.
      rewrite String.eqb_refl. destruct (Negated t); simpl; rewrite orb_false_r; exact Ht.
    - eapply Forall_impl; [exact Hb|]. exact Hmono.
    - eapply Forall_impl; [exact Ha|]. exact Hmono. }
  split; [apply AlmostSatisfies_only_inconclusive; exact H'|].
  eapply only_inconclusive_Inconclusive. exact H'.
Qed.

(** X7 on the root's own incompatibility, with the root just decided. *)
Lemma derive_keeps_almost_satisfied_witness :
  let s := rederived "root" "1.0.0" 0 in
  let C := rootIncompatibility "root" "1.0.0" in
  AlmostSatisfies (partialSolution s) C = Some dependencyTerm
  ∧ AlmostSatisfies (partialSolution (derive s dependencyTerm C)) C = Some dependencyTerm.
Proof.
  intros s C. split; [reflexivity|].
  apply (derive_keeps_almost_satisfied s C dependencyTerm). reflexivity.
Defined.

(** ** The incompatibilities of a package *)

Lemma getIncompatibilitiesForPackage_loop_filter (l : list Incompatibility)
  (packageName : string) :
  ∀ result,
    getIncompatibilitiesForPackage_loop l packageName result
    = result ++ List.filter (λ i, mentions packageName (Terms i)) l.
Proof.
  induction l as [|i l IH]; intros result; simpl; [rewrite app_nil_r; reflexivity|].
  destruct (mentions packageName (Terms i)); rewrite IH; [|reflexivity].
  rewrite <- app_assoc. reflexivity.
Qed.

Lemma mentions_iff (packageName : string) (terms : list Term) :
  mentions packageName terms = true ↔ ∃ t, t ∈ terms ∧ Package t = packageName.
Proof.
  induction terms as [|x terms IH]; simpl.
  - split; [discriminate|]. intros (t & Ht & _). apply elem_of_nil in Ht. contradiction.
  - destruct (String.eqb_spec (Package x) packageName) as [Hx|Hx].
    + split; [|reflexivity]. intros _. exists x. split; [apply list_elem_of_here|exact Hx].
    + rewrite IH. split.
      * intros (t & Ht & Hp). exists t. split; [apply list_elem_of_further|]; assumption.
      * intros (t & Ht & Hp). apply elem_of_cons in Ht as [->|Ht]; [contradiction|].
        exists t. split; assumption.
Qed.

(** X8. [getIncompatibilitiesForPackage] returns the incompatibilities
    of the store with a term on the package, each once and in store
    order; one without terms is never returned. *)
Theorem getIncompatibilitiesForPackage_selects (s : Solver) (packageName : string) :
  getIncompatibilitiesForPackage s packageName
  = List.filter (λ i, mentions packageName (Terms i)) (incompatibilities s)
  ∧ (∀ i, i ∈ getIncompatibilitiesForPackage s packageName
          ↔ i ∈ incompatibilities s ∧ ∃ t, t ∈ Terms i ∧ Package t = packageName)
  ∧ (∀ i, i ∈ getIncompatibilitiesForPackage s packageName → Terms i ≠ []).
Proof.
  assert (getIncompatibilitiesForPackage s packageName
          = List.filter (λ i, mentions packageName (Terms i)) (incompatibilities s)) as Hf.
  { unfold getIncompatibilitiesForPackage.
    rewrite getIncompatibilitiesForPackage_loop_filter. reflexivity. }
  assert (∀ i, i ∈ getIncompatibilitiesForPackage s packageName
               ↔ i ∈ incompatibilities s ∧ ∃ t, t ∈ Terms i ∧ Package t = packageName)
    as Hm.
  { intros i. rewrite Hf, !list_elem_of_In, List.filter_In, mentions_iff. reflexivity. }
  split; [exact Hf|]. split; [exact Hm|].
  intros i Hi Hnil. apply Hm in Hi as (_ & t & Ht & _).
  rewrite Hnil in Ht. apply elem_of_nil in Ht. contradiction.
Qed.

(** ** What unit propagation leaves alone *)

Lemma same_store_refl (s : Solver) : same_store s s.
Proof. repeat split. Qed.

Lemma same_store_trans (s1 s2 s3 : Solver) :
  same_store s1 s2 → same_store s2 s3 → same_store s1 s3.
Proof. unfold same_store. intros (? & ? & ?) (? & ? & ?). repeat split; congruence. Qed.

Lemma resolveConflict_same_store fuel s C s' r :
  resolveConflict fuel s C = Some (s', r) → same_store s s'.
Proof.
  destruct fuel as [|fuel]; [discriminate|]. rewrite resolveConflict_unfold.
  destruct (isRootCause s C); intros [= <- <-]; repeat split.
Qed.

Lemma UnitPropagation_scan_same_store fuel todo :
  ∀ s changed, same_store s (scan_solver (UnitPropagation_scan fuel s changed todo)).
Proof.
  induction todo as [|C rest IH]; intros s changed; [apply same_store_refl|].
  rewrite UnitPropagation_scan_cons.
  destruct (SatisfiesIncompatibility (partialSolution s) C).
  - destruct (AlmostSatisfies (partialSolution s) C) as [t|]; [|apply IH].
    eapply same_store_trans; [|apply IH]. repeat split.
  - destruct (resolveConflict fuel s C) as [[s1 [C'|]]|] eqn:Hr;
      [| |apply same_store_refl];
      pose proof (resolveConflict_same_store _ _ _ _ _ Hr) as H1; [|exact H1].
    destruct (AlmostSatisfies (partialSolution s1) C') as [t|];
      (eapply same_store_trans; [exact H1|]); [|apply IH].
    eapply same_store_trans; [|apply IH]. repeat split.
  - apply IH.
Qed.

Lemma UnitPropagation_loop_same_store rnd fuel :
  ∀ k s changed, same_store s (outcome_solver (UnitPropagation_loop fuel rnd k s changed)).
Proof.
  induction fuel as [|fuel IH]; intros k s changed; rewrite UnitPropagation_loop_unfold;
    destruct (pick rnd k changed) as [p|]; try apply same_store_refl.
  pose proof (UnitPropagation_scan_same_store (S fuel)
                (rev (getIncompatibilitiesForPackage s p)) s (changed ∖ {[p]})) as H.
  destruct (UnitPropagation_scan _ _ _ _) as [s1 c|s1 changed1|s1]; simpl in H;
    [exact H| |exact H].
  eapply same_store_trans; [exact H|apply IH].
Qed.

(** X9. Unit propagation and conflict resolution never touch the store
    of incompatibilities, nor the root: what [resolveConflict] returns
    is not appended, and a run of [UnitPropagation] ends, or is
    interrupted, with the incompatibilities it started with. *)
Theorem UnitPropagation_keeps_store (s : Solver) :
  (∀ fuel rnd k packageName,
      same_store s (outcome_solver (UnitPropagation fuel rnd k s packageName)))
  ∧ (∀ fuel C s' r, resolveConflict fuel s C = Some (s', r) → same_store s s').
Proof.
  split.
  - intros fuel rnd k packageName. apply UnitPropagation_loop_same_store.
  - intros fuel C s' r. apply resolveConflict_same_store.
Qed.

(** ** What a failed propagation reports *)

Lemma UnitPropagation_scan_failure fuel todo :
  ∀ s changed s' conflict,
    UnitPropagation_scan fuel s changed todo = ScanFailed s' conflict →
    conflict ∈ todo
    ∧ SatisfiesIncompatibility (partialSolution s') conflict = Satisfied
    ∧ isRootCause s' conflict = false.
Proof.
  induction todo as [|C rest IH]; intros s changed s' conflict; [discriminate|].
  rewrite UnitPropagation_scan_cons.
  destruct (SatisfiesIncompatibility (partialSolution s) C) eqn:Hs.
  - destruct (AlmostSatisfies (partialSolution s) C); intros H; apply IH in H;
      (split; [apply list_elem_of_further|]; apply H).
  - destruct fuel as [|fuel]; [discriminate|].
    rewrite resolveConflict_unfold.
    destruct (isRootCause s C) eqn:Hroot.
    + destruct (AlmostSatisfies _ C); intros H; apply IH in H;
        (split; [apply list_elem_of_further|]; apply H).
    + intros [= <- <-]. split; [apply list_elem_of_here|]. split; assumption.
  - intros H; apply IH in H. split; [apply list_elem_of_further|]; apply H.
Qed.

Lemma UnitPropagation_loop_result rnd fuel :
  ∀ k s changed r k' s',
    UnitPropagation_loop fuel rnd k s changed = Returned (r, k') s' →
    r = mkUnitPropagationResult true None
    ∨ ∃ conflict,
        r = mkUnitPropagationResult false (Some conflict)
        ∧ conflict ∈ incompatibilities s
        ∧ SatisfiesIncompatibility (partialSolution s') conflict = Satisfied
        ∧ isRootCause s' conflict = false.
Proof.
  induction fuel as [|fuel IH]; intros k s changed r k' s';
    rewrite UnitPropagation_loop_unfold;
    destruct (pick rnd k changed) as [p|];
    try discriminate; try (intros [= <- <- <-]; left; reflexivity).
  pose proof (UnitPropagation_scan_same_store (S fuel)
                (rev (getIncompatibilitiesForPackage s p)) s (changed ∖ {[p]})) as Hst.
  destruct (UnitPropagation_scan _ _ _ _) as [s1 c|s1 changed1|s1] eqn:Hscan;
    [| |discriminate].
  - intros [= <- <- <-]. right. exists c.
    apply UnitPropagation_scan_failure in Hscan as (Hin & Hsat & Hroot).
    split; [reflexivity|]. split; [|split; assumption].
    apply list_elem_of_In, List.in_rev in Hin.
    unfold getIncompatibilitiesForPackage in Hin.
    rewrite getIncompatibilitiesForPackage_loop_filter in Hin. simpl in Hin.
    apply List.filter_In in Hin as [Hin _].
    apply list_elem_of_In. exact Hin.
  - intros H. apply IH in H as [H|(c & H1 & H2 & H3)]; [left; exact H|].
    right. exists c. split; [exact H1|]. split; [|exact H3].
    destruct Hst as [Hst _]. simpl in Hst. rewrite <- Hst. exact H2.
Qed.

(** X10. When [UnitPropagation] returns, it either reports success with
    no conflict, or failure with a conflict that is an incompatibility
    of the store, is satisfied by the trail it leaves, and is not a root
    cause. *)
Theorem UnitPropagation_reports (fuel : nat) (rnd : nat → nat) (k : nat) (s : Solver)
  (packageName : string) (r : UnitPropagationResult) (k' : nat) (s' : Solver) :
  UnitPropagation fuel rnd k s packageName = Returned (r, k') s' →
  (Success r = true ∧ Conflict r = None)
  ∨ (Success r = false
     ∧ ∃ conflict,
         Conflict r = Some conflict
         ∧ conflict ∈ incompatibilities s
         ∧ SatisfiesIncompatibility (partialSolution s') conflict = Satisfied
         ∧ isRootCause s' conflict = false).
Proof.
  intros H. apply UnitPropagation_loop_result in H as [->|(c & -> & H)].
  - left. split; reflexivity.
  - right. split; [reflexivity|]. exists c. split; [reflexivity|exact H].
Qed.

(** X10 on [excluded_solver]: the first propagation fails on [{root
    1.0.0, dependency any}]. *)
Lemma UnitPropagation_reports_witness :
  let s := initializeRootPackage excluded_solver in
  ∃ s', UnitPropagation 1 (λ _, 0%nat) 0 s "root"
        = Returned (mkUnitPropagationResult false (Some excluded_inc), 1%nat) s'
        ∧ SatisfiesIncompatibility (partialSolution s') excluded_inc = Satisfied.
Proof.
  intros s. eexists. split; [vm_compute; reflexivity|].
  destruct (UnitPropagation_reports 1 (λ _, 0%nat) 0 s "root"
              (mkUnitPropagationResult false (Some excluded_inc)) 1%nat
              (outcome_solver (UnitPropagation 1 (λ _, 0%nat) 0 s "root")))
    as [[H _]|(_ & c & Hc & _ & Hsat & _)].
  - vm_compute. reflexivity.
  - discriminate.
  - injection Hc as <-. exact Hsat.
Defined.

(** ** Invariants of the trail during a solve *)

Section TrailInvariant.

(** A property of trails kept by the three ways [Solve] changes the
    trail: a derivation at the current level, a decision one level up,
    a backtrack to level 0. *)
Variable P : list Assignment → Prop.

Hypothesis P_derived :
  ∀ l t C,
    t ∈ Terms C → P l →
    P (l ++ [mkAssignment (negate t) (GetDecisionLevel (mkPartialSolution l)) false
               (Some C)]).

Hypothesis P_decided :
  ∀ l t,
    P l → P (l ++ [mkAssignment t (GetDecisionLevel (mkPartialSolution l) + 1) true None]).

Hypothesis P_backtracked :
  ∀ l, P l → P (Assignments (Backtrack (mkPartialSolution l) 0)).

Lemma derive_keeps (s : Solver) (t : Term) (C : Incompatibility) (ps : PartialSolution) :
  AlmostSatisfies ps C = Some t →
  P (Assignments (partialSolution s)) →
  P (Assignments (partialSolution (derive s t C))).
Proof.
  intros Ha. destruct s as [[l] incs root version]. simpl. apply P_derived.
  apply AlmostSatisfies_only_inconclusive in Ha as (before & after & -> & _).
  apply elem_of_app. right. apply list_elem_of_here.
Qed.

Lemma resolveConflict_keeps fuel s C s' r :
  resolveConflict fuel s C = Some (s', r) →
  P (Assignments (partialSolution s)) → P (Assignments (partialSolution s')).
Proof.
  destruct fuel as [|fuel]; [discriminate|]. rewrite resolveConflict_unfold.
  destruct (isRootCause s C); intros [= <- <-] H; [|exact H].
  destruct s as [[l] incs root version]. simpl in *. apply P_backtracked. exact H.
Qed.

Lemma UnitPropagation_scan_keeps fuel todo :
  ∀ s changed,
    P (Assignments (partialSolution s)) →
    P (Assignments (partialSolution (scan_solver (UnitPropagation_scan fuel s changed todo)))).
Proof.
  induction todo as [|C rest IH]; intros s changed H; [exact H|].
  rewrite UnitPropagation_scan_cons.
  destruct (SatisfiesIncompatibility (partialSolution s) C).
  - destruct (AlmostSatisfies (partialSolution s) C) eqn:Ha;
      apply IH; [eapply derive_keeps; [exact Ha|]|]; exact H.
  - destruct (resolveConflict fuel s C) as [[s1 [C'|]]|] eqn:Hr; simpl; [| |exact H];
      pose proof (resolveConflict_keeps _ _ _ _ _ Hr H) as H1; [|exact H1].
    destruct (AlmostSatisfies (partialSolution s1) C') eqn:Ha;
      apply IH; [eapply derive_keeps; [exact Ha|]|]; exact H1.
  - apply IH. exact H.
Qed.

Lemma UnitPropagation_loop_keeps rnd fuel :
  ∀ k s changed,
    P (Assignments (partialSolution s)) →
    P (Assignments
         (partialSolution (outcome_solver (UnitPropagation_loop fuel rnd k s changed)))).
Proof.
  induction fuel as [|fuel IH]; intros k s changed H; rewrite UnitPropagation_loop_unfold;
    destruct (pick rnd k changed) as [p|]; try exact H.
  pose proof (UnitPropagation_scan_keeps (S fuel)
                (rev (getIncompatibilitiesForPackage s p)) s (changed ∖ {[p]}) H) as Hs.
  destruct (UnitPropagation_scan _ _ _ _) as [s1 c|s1 changed1|s1]; simpl in *;
    [exact Hs| |exact Hs].
  apply IH. exact Hs.
Qed.

Lemma DecisionMaking_keeps (s : Solver) :
  P (Assignments (partialSolution s)) →
  P (Assignments (partialSolution (DecisionMaking s).1)).
Proof.
  intros H. unfold DecisionMaking.
  destruct (String.eqb _ ""); [exact H|].
  destruct (getTermForPackage s _); [|exact H].
  destruct (String.eqb _ ""); [exact H|].
  destruct s as [[l] incs root version]. simpl in *. apply P_decided. exact H.
Qed.

Lemma Solve_iteration_keeps fuel rnd k s nextPackage :
  P (Assignments (partialSolution s)) →
  P (Assignments
       (partialSolution (iteration_solver (Solve_iteration fuel rnd k s nextPackage)))).
Proof.
  intros H. unfold Solve_iteration, UnitPropagation.
  pose proof (UnitPropagation_loop_keeps rnd fuel k s {[nextPackage]} H) as Hup.
  destruct (UnitPropagation_loop _ _ _ _ _) as [[result k1] s1|s1]; simpl in *;
    [|exact Hup].
  destruct (negb (Success result)); [exact Hup|].
  pose proof (DecisionMaking_keeps s1 Hup) as Hd.
  destruct (DecisionMaking s1) as [s2 decisionResult]. simpl in Hd.
  destruct (DSuccess decisionResult); [exact Hd|].
  destruct (negb _); exact Hd.
Qed.

Lemma loop_head_keeps rnd s0 s nextPackage k :
  P (Assignments (partialSolution (initializeRootPackage s0))) →
  loop_head rnd s0 s nextPackage k →
  P (Assignments (partialSolution s)).
Proof.
  intros H0 Hhead.
  induction Hhead as [|fuel s nextPackage k s1 nextPackage1 k1 _ IH Hstep]; [exact H0|].
  pose proof (Solve_iteration_keeps fuel rnd k s nextPackage IH) as Hit.
  rewrite Hstep in Hit. exact Hit.
Qed.

End TrailInvariant.








(** ** [Solve] returns no solution *)

Lemma SatisfiesIncompatibility_never_Contradicted (ps : PartialSolution)
  (C : Incompatibility) :
  SatisfiesIncompatibility ps C ≠ Contradicted.
Proof.
  unfold SatisfiesIncompatibility.
  rewrite SatisfiesIncompatibility_count_spec, count_result_Contradicted. simpl.
  destruct (_ =? _); discriminate.
Qed.

Lemma level0_GetDecisionLevel (l : list Assignment) :
  level0 l → GetDecisionLevel (mkPartialSolution l) = 0.
Proof.
  intros Hall. unfold GetDecisionLevel. simpl.
  destruct (last l) as [a|] eqn:Hlast; [|reflexivity].
  apply last_Some_elem_of in Hlast.
  unfold level0 in Hall. rewrite Forall_forall in Hall. apply Hall. exact Hlast.
Qed.

Lemma started_level0 root version (rest : list Assignment) :
  level0 rest → level0 (rootAssignment root version :: rest).
Proof. intros H. constructor; [reflexivity|exact H]. Qed.

Lemma started_derive root version given (rest : list Assignment) (t : Term)
  (C : Incompatibility) :
  level0 rest →
  derive (started root version given rest) t C
  = started root version given (rest ++ [mkAssignment (negate t) 0 false (Some C)]).
Proof.
  intros H. unfold derive, started, set_partialSolution, AddAssignment. simpl.
  rewrite (level0_GetDecisionLevel _ (started_level0 root version rest H)). reflexivity.
Qed.

Lemma started_backtrack root version given (rest : list Assignment) (C : Incompatibility) :
  level0 rest →
  backtrackFromConflict (started root version given rest) C
  = started root version given rest.
Proof.
  intros H. unfold backtrackFromConflict, determineBacktrackLevel, started,
    set_partialSolution. simpl.
  pose proof (Backtrack_to_current_level (rootAssignment root version :: rest)) as Hb.
  rewrite (level0_GetDecisionLevel _ (started_level0 root version rest H)) in Hb.
  rewrite Hb. reflexivity.
Qed.

(** The root's own incompatibility is either almost satisfied, with
    the [dependency] term open, or satisfied. *)
Lemma rootIncompatibility_relation root version (ps : PartialSolution) :
  Satisfies ps (rootTerm root version) = Satisfied →
  (SatisfiesIncompatibility ps (rootIncompatibility root version) = Inconclusive
   ∧ AlmostSatisfies ps (rootIncompatibility root version) = Some dependencyTerm)
  ∨ SatisfiesIncompatibility ps (rootIncompatibility root version) = Satisfied.
Proof.
  intros Hroot. unfold SatisfiesIncompatibility, AlmostSatisfies, rootIncompatibility.
  simpl. rewrite Hroot.
  pose proof (Satisfies_never_Contradicted ps dependencyTerm) as Hn.
  destruct (Satisfies ps dependencyTerm); simpl;
    [left; split; reflexivity|right; reflexivity|contradiction].
Qed.

Lemma started_scan fuel root version given (todo : list Incompatibility) :
  ∀ (rest : list Assignment) (changed : gset string),
    level0 rest →
    match UnitPropagation_scan fuel (started root version given rest) changed todo with
    | ScanDone s' changed' =>
        ∃ rest',
          s' = started root version given rest'
          ∧ level0 rest'
          ∧ changed ⊆ changed'
          ∧ (rootIncompatibility root version ∈ todo → "dependency" ∈ changed')
    | _ => True
    end.
Proof.
  induction todo as [|C todo IH]; intros rest changed Hrest.
  - exists rest. split; [reflexivity|]. split; [exact Hrest|]. split; [reflexivity|].
    intros H. apply elem_of_nil in H. contradiction.
  - rewrite UnitPropagation_scan_cons.
    assert (Satisfies (partialSolution (started root version given rest))
              (rootTerm root version) = Satisfied) as Hroot
      by (apply (Satisfies_head _ (rootAssignment root version) rest); reflexivity).
    destruct (SatisfiesIncompatibility (partialSolution (started root version given rest)) C)
      eqn:Hs.
    + destruct (AlmostSatisfies (partialSolution (started root version given rest)) C)
        as [t|] eqn:Ha.
      * rewrite (started_derive _ _ _ _ _ _ Hrest).
        specialize (IH (rest ++ [mkAssignment (negate t) 0 false (Some C)])
                      (changed ∪ {[Package t]})
                      ltac:(apply Forall_app; split; [exact Hrest|repeat constructor])).
        destruct (UnitPropagation_scan _ _ _ todo) as [| s' changed' |]; try exact I.
        destruct IH as (rest' & -> & Hl & Hsub & Hdep).
        exists rest'. split; [reflexivity|]. split; [exact Hl|].
        split; [set_unfold; intros x Hx; apply Hsub; left; exact Hx|].
        intros Hin. apply elem_of_cons in Hin as [<-|Hin]; [|exact (Hdep Hin)].
        destruct (rootIncompatibility_relation root version _ Hroot) as [[_ Hd]|Hd];
          [|congruence].
        rewrite Hd in Ha. injection Ha as <-.
        apply Hsub. set_unfold. right. reflexivity.
      * specialize (IH rest changed Hrest).
        destruct (UnitPropagation_scan _ _ _ todo) as [| s' changed' |]; try exact I.
        destruct IH as (rest' & -> & Hl & Hsub & Hdep).
        exists rest'. split; [reflexivity|]. split; [exact Hl|]. split; [exact Hsub|].
        intros Hin. apply elem_of_cons in Hin as [<-|Hin]; [|exact (Hdep Hin)].
        destruct (rootIncompatibility_relation root version _ Hroot) as [[_ Hd]|Hd];
          congruence.
    + destruct fuel as [|fuel]; [exact I|].
      rewrite resolveConflict_unfold.
      destruct (isRootCause (started root version given rest) C) eqn:Hrc; [|exact I].
      rewrite (started_backtrack _ _ _ _ _ Hrest), (Satisfied_not_almost _ _ Hs).
      specialize (IH rest changed Hrest).
      destruct (UnitPropagation_scan _ _ _ todo) as [| s' changed' |]; try exact I.
      destruct IH as (rest' & -> & Hl & Hsub & Hdep).
      exists rest'. split; [reflexivity|]. split; [exact Hl|]. split; [exact Hsub|].
      intros Hin. apply elem_of_cons in Hin as [<-|Hin]; [|exact (Hdep Hin)].
      discriminate Hrc.
    + exfalso. exact (SatisfiesIncompatibility_never_Contradicted _ _ Hs).
Qed.

Lemma started_scans_root root version given (rest : list Assignment) (p : string) :
  p = root ∨ p = "dependency" →
  rootIncompatibility root version
  ∈ rev (getIncompatibilitiesForPackage (started root version given rest) p).
Proof.
  intros Hp. apply list_elem_of_In, List.in_rev. rewrite List.rev_involutive.
  unfold getIncompatibilitiesForPackage.
  rewrite getIncompatibilitiesForPackage_loop_filter. simpl.
  apply List.filter_In. split.
  - apply List.in_or_app. right. left. reflexivity.
  - apply mentions_iff. destruct Hp as [-> | ->].
    + exists (rootTerm root version). split; [apply list_elem_of_here|reflexivity].
    + exists dependencyTerm.
      split; [apply list_elem_of_further, list_elem_of_here|reflexivity].
Qed.

Lemma started_loop rnd root version given fuel :
  ∀ k (rest : list Assignment) (changed : gset string),
    level0 rest →
    root ∈ changed ∨ "dependency" ∈ changed →
    match UnitPropagation_loop fuel rnd k (started root version given rest) changed with
    | Returned (r, _) _ => Success r = false
    | OutOfFuel _ => True
    end.
Proof.
  induction fuel as [|fuel IH]; intros k rest changed Hrest Hk;
    rewrite UnitPropagation_loop_unfold;
    (destruct (pick_elem rnd k changed) as (p & -> & Hp);
     [destruct Hk as [Hk|Hk]; exact (non_empty_inhabited_L _ _ Hk)|]);
    [exact I|].
  pose proof (started_scan (S fuel) root version given
                (rev (getIncompatibilitiesForPackage (started root version given rest) p))
                rest (changed ∖ {[p]}) Hrest) as Hscan.
  destruct (UnitPropagation_scan _ _ _ _) as [s1 c|s1 changed1|s1];
    [reflexivity| |exact I].
  destruct Hscan as (rest' & -> & Hl & Hsub & Hdep).
  apply IH; [exact Hl|].
  destruct (decide (p = root)) as [Hpr|Hpr];
    [right; apply Hdep, started_scans_root; left; exact Hpr|].
  destruct (decide (p = "dependency")) as [Hpd|Hpd];
    [right; apply Hdep, started_scans_root; right; exact Hpd|].
  destruct Hk as [Hk|Hk]; [left|right]; apply Hsub; set_unfold; split; congruence.
Qed.

Lemma initializeRootPackage_fresh root version given :
  initializeRootPackage (fresh root version given) = started root version given [].
Proof.
  unfold initializeRootPackage, addRootIncompatibilities, set_incompatibilities,
    set_partialSolution, started, fresh. simpl.
  rewrite fresh_partialSolution, fresh_rootPackage, fresh_rootVersion,
    fresh_incompatibilities. reflexivity.
Qed.

(** X12. [Solve] never returns a solution.  On every solver made by
    [NewSolver] and [AddIncompatibility], in whatever order the maps
    are iterated and however long it runs, [Solve] is either still
    inside its first unit propagation or has returned the error
    [version solving failed: conflict detected]; [DecisionMaking] is
    never reached. *)
Theorem Solve_never_succeeds
  (fuel : nat) (rnd : nat → nat) (root version : string)
  (given : list Incompatibility) :
  (∃ s', Solve fuel rnd (fresh root version given) = OutOfFuel s')
  ∨ (∃ s', Solve fuel rnd (fresh root version given)
           = Returned (SolveErr "version solving failed: conflict detected") s').
Proof.
  unfold Solve. rewrite initializeRootPackage_fresh.
  destruct fuel as [|fuel]; [left; eexists; reflexivity|].
  cbn [Solve_loop]. unfold Solve_iteration, UnitPropagation.
  pose proof (started_loop rnd root version given (S fuel) 0 [] {[root]}
                ltac:(constructor) ltac:(left; set_solver)) as H.
  change (rootPackage (started root version given [])) with root.
  destruct (UnitPropagation_loop _ _ _ _ _) as [[r k1] s1|s1].
  - rewrite H. simpl. right. eexists. reflexivity.
  - left. eexists. reflexivity.
Qed.

(** ** Decision making *)

Lemma findPackageForDecision_loop_first (all l : list Assignment) :
  (findPackageForDecision_loop all l = "" ∧ all_decided all l)
  ∨ ∃ before a after,
      l = before ++ a :: after
      ∧ all_decided all before
      ∧ awaits a = true
      ∧ hasDecision all (Package (ATerm a)) = false
      ∧ findPackageForDecision_loop all l = Package (ATerm a).
Proof.
  induction l as [|x l IH]; simpl; [left; split; [reflexivity|constructor]|].
  fold (awaits x).
  destruct (awaits x) eqn:Hx;
    [destruct (hasDecision all (Package (ATerm x))) eqn:Hd; simpl|].
  - destruct IH as [[H1 H2]|(before & a & after & -> & Hb & Ha & Hd' & Hr)].
    + left. split; [exact H1|]. constructor; [intros _; exact Hd|exact H2].
    + right. exists (x :: before), a, after. split; [reflexivity|].
      split; [constructor; [intros _; exact Hd|exact Hb]|]. repeat split; assumption.
  - right. exists [], x, l. split; [reflexivity|]. split; [constructor|].
    repeat split; assumption.
  - destruct IH as [[H1 H2]|(before & a & after & -> & Hb & Ha & Hd' & Hr)].
    + left. split; [exact H1|]. constructor; [intros H; congruence|exact H2].
    + right. exists (x :: before), a, after. split; [reflexivity|].
      split; [constructor; [intros H; congruence|exact Hb]|]. repeat split; assumption.
Qed.

(** X13. [findPackageForDecision] returns the package of the first
    positive derivation of the trail whose package has no decision, and
    the empty string when every positive derivation is on a decided
    package; when that first package is itself named by the empty
    string the two answers coincide. *)
Theorem findPackageForDecision_first_undecided (s : Solver) :
  let all := Assignments (partialSolution s) in
  (findPackageForDecision s = "" ∧ all_decided all all)
  ∨ ∃ before a after,
      all = before ++ a :: after
      ∧ all_decided all before
      ∧ IsDecision a = false ∧ Negated (ATerm a) = false
      ∧ hasDecision all (Package (ATerm a)) = false
      ∧ findPackageForDecision s = Package (ATerm a).
Proof.
  intros all. unfold findPackageForDecision. fold all.
  destruct (findPackageForDecision_loop_first all all)
    as [H|(before & a & after & H1 & H2 & H3 & H4 & H5)]; [left; exact H|].
  right. exists before, a, after.
  unfold awaits in H3. apply andb_true_iff in H3 as [Ha Hb].
  apply negb_true_iff in Ha, Hb. repeat split; assumption.
Qed.

Lemma getTermForPackage_found (s : Solver) (a : Assignment) :
  a ∈ Assignments (partialSolution s) →
  getTermForPackage s (Package (ATerm a)) ≠ None.
Proof.
  unfold getTermForPackage. intros Ha.
  assert (In a (List.filter
                  (λ assignment,
                     String.eqb (Package (ATerm assignment)) (Package (ATerm a)))
                  (Assignments (partialSolution s)))) as Hin.
  { apply List.filter_In. split; [apply list_elem_of_In; exact Ha|apply String.eqb_refl]. }
  destruct (List.filter _ _); [contradiction|]. simpl. discriminate.
Qed.

Lemma findPackageForDecision_on_trail (s : Solver) :
  findPackageForDecision s ≠ "" →
  ∃ a, a ∈ Assignments (partialSolution s)
       ∧ findPackageForDecision s = Package (ATerm a).
Proof.
  intros Hne. unfold findPackageForDecision in *.
  destruct (findPackageForDecision_loop_first
              (Assignments (partialSolution s)) (Assignments (partialSolution s)))
    as [[H _]|(before & a & after & H1 & _ & _ & _ & H5)]; [contradiction|].
  exists a. split; [|exact H5]. rewrite H1.
  apply elem_of_app. right. apply list_elem_of_here.
Qed.

(** X14. [DecisionMaking] never reports an error: the package it picks
    comes from the trail, so a term for it is always found.  It reports
    success exactly when [findPackageForDecision] returns the empty
    string, and then leaves the solver as it is. *)
Theorem DecisionMaking_never_errors (s : Solver) :
  Error (DecisionMaking s).2 = ""
  ∧ (DSuccess (DecisionMaking s).2 = true ↔ findPackageForDecision s = "")
  ∧ (DSuccess (DecisionMaking s).2 = true → (DecisionMaking s).1 = s).
Proof.
  unfold DecisionMaking.
  destruct (String.eqb_spec (findPackageForDecision s) "") as [He|Hne].
  - simpl. repeat split; auto.
  - destruct (findPackageForDecision_on_trail s Hne) as (a & Ha & Hp).
    pose proof (getTermForPackage_found s a Ha) as Hfound. rewrite <- Hp in Hfound.
    destruct (getTermForPackage s (findPackageForDecision s)) as [term|];
      [|contradiction].
    destruct (String.eqb _ ""); simpl; repeat split; intros; congruence.
Qed.





(** ** The error report *)

Lemma generateReportLines_appends (s : Solver) :
  ∀ (node : DerivationNode) (report : ErrorReport),
    ∃ added,
      Lines (generateReportLines s node report).2 = Lines report ++ added
      ∧ ((length (Causes node) ≤ 2)%nat → added ≠ [])
      ∧ ((2 < length (Causes node))%nat → added = []).
Proof.
  fix IH 1. intros [incompatibility causes outgoing line] report.
  destruct causes as [|cause1 [|cause2 [|cause3 causes]]]; simpl.
  - eexists. split; [reflexivity|]. split; [discriminate|lia].
  - destruct (IH cause1 report) as (added1 & H1 & _).
    destruct (generateReportLines s cause1 report) as [cause1' report1].
    simpl in *. rewrite H1, <- app_assoc.
    eexists. split; [reflexivity|]. split; [|lia].
    intros _ H. apply app_eq_nil in H as [_ H]. discriminate.
  - destruct (IH cause1 report) as (added1 & H1 & _).
    destruct (generateReportLines s cause1 report) as [cause1' report1].
    destruct (IH cause2 report1) as (added2 & H2 & _).
    destruct (generateReportLines s cause2 report1) as [cause2' report2].
    simpl in *. rewrite H2, H1, <- !app_assoc.
    eexists. split; [reflexivity|]. split; [|lia].
    intros _ H. apply app_eq_nil in H as [_ H]. apply app_eq_nil in H as [_ H].
    discriminate.
  - exists []. split; [rewrite app_nil_r; reflexivity|]. split; [lia|reflexivity].
Qed.

(** X16. [GenerateErrorReport] always yields exactly one line, the
    external form of the incompatibility it is given: the graph it
    builds has no causes, so the [Cause] chain is never reported.
    [generateReportLines] itself only appends to the report: it adds at
    least one line for a node with at most two causes and none for a
    node with more. *)
Theorem GenerateErrorReport_one_line (s : Solver) (C : Incompatibility) :
  Lines (GenerateErrorReport s C) = [formatExternalIncompatibility s C]
  ∧ ErrorReport_String (GenerateErrorReport s C) = formatExternalIncompatibility s C
  ∧ (∀ cause,
        GenerateErrorReport s (mkIncompatibility (Terms C) cause)
        = GenerateErrorReport s C)
  ∧ (∀ node report,
        ∃ added,
          Lines (generateReportLines s node report).2 = Lines report ++ added
          ∧ ((length (Causes node) ≤ 2)%nat → added ≠ [])
          ∧ ((2 < length (Causes node))%nat → added = [])).
Proof.
  split; [reflexivity|]. split; [reflexivity|].
  split; [intros cause; reflexivity|]. apply generateReportLines_appends.
Qed.

Lemma format_terms_Term_String (terms : list Term) :
  format_terms terms = List.map Term_String terms.
Proof.
  unfold format_terms. apply List.map_ext. intros t. unfold Term_String.
  destruct (Negated t); reflexivity.
Qed.

(** X17. An incompatibility that does not have exactly one term is
    printed by [formatIncompatibility] as [Incompatibility.String]
    prints it.  For a single term both formatters of the report leave
    the polarity out: [{t}] and [{not t}] give the same text. *)
Theorem formatIncompatibility_polarity (s : Solver) :
  (∀ C, length (Terms C) ≠ 1%nat → formatIncompatibility s C = Incompatibility_String C)
  ∧ (∀ t cause cause',
        formatIncompatibility s (mkIncompatibility [negate t] cause)
        = formatIncompatibility s (mkIncompatibility [t] cause')
        ∧ formatExternalIncompatibility s (mkIncompatibility [negate t] cause)
          = formatExternalIncompatibility s (mkIncompatibility [t] cause')).
Proof.
  split.
  - intros [terms cause] Hlen. unfold formatIncompatibility, Incompatibility_String.
    simpl in *. rewrite <- format_terms_Term_String.
    destruct terms as [|t [|u terms]]; [reflexivity| |reflexivity].
    simpl in Hlen. congruence.
  - intros t cause cause'. split; reflexivity.
Qed.

(** ** The resolution step *)

(** X18. [createPriorCause] keeps every term of the conflict, in order
    and in front, adds the terms of the satisfier's cause on other
    packages, and records the conflict as the cause of the result; so
    the result mentions the satisfier's package exactly when the
    conflict does. *)
Theorem createPriorCause_terms (s : Solver) (C : Incompatibility) (satisfier : Assignment) :
  (∃ added,
      Terms (createPriorCause s C satisfier) = Terms C ++ added
      ∧ Forall (λ t, Package t ≠ Package (ATerm satisfier)) added
      ∧ ∀ t, t ∈ added
             ↔ ∃ cause, ACause satisfier = Some cause
                        ∧ t ∈ Terms cause
                        ∧ Package t ≠ Package (ATerm satisfier))
  ∧ Cause (createPriorCause s C satisfier) = Some C
  ∧ mentions (Package (ATerm satisfier)) (Terms (createPriorCause s C satisfier))
    = mentions (Package (ATerm satisfier)) (Terms C).
Proof.
  assert (∀ l t,
            t ∈ List.filter
                  (λ term, negb (String.eqb (Package term) (Package (ATerm satisfier)))) l
            ↔ t ∈ l ∧ Package t ≠ Package (ATerm satisfier)) as Hf.
  { intros l t. rewrite !list_elem_of_In, List.filter_In, negb_true_iff, String.eqb_neq.
    reflexivity. }
  assert (∃ added,
            Terms (createPriorCause s C satisfier) = Terms C ++ added
            ∧ Forall (λ t, Package t ≠ Package (ATerm satisfier)) added
            ∧ ∀ t, t ∈ added
                   ↔ ∃ cause, ACause satisfier = Some cause
                              ∧ t ∈ Terms cause
                              ∧ Package t ≠ Package (ATerm satisfier)) as Hadd.
  { unfold createPriorCause. destruct (ACause satisfier) as [cause|]; simpl.
    - eexists. split; [reflexivity|]. split.
      + apply Forall_forall. intros t Ht. apply Hf in Ht. apply Ht.
      + intros t. rewrite Hf. split.
        * intros [H1 H2]. exists cause. repeat split; assumption.
        * intros (c & [= <-] & H1 & H2). split; assumption.
    - exists []. split; [rewrite app_nil_r; reflexivity|]. split; [constructor|].
      intros t. split.
      + intros H. apply elem_of_nil in H. contradiction.
      + intros (c & H & _). discriminate. }
  split; [exact Hadd|]. split; [reflexivity|].
  destruct Hadd as (added & -> & Hall & _).
  induction (Terms C) as [|t l IH]; simpl.
  - induction Hall as [|t added Ht _ IH]; simpl; [reflexivity|].
    apply String.eqb_neq in Ht. rewrite Ht. exact IH.
  - destruct (String.eqb (Package t) (Package (ATerm satisfier))); [reflexivity|exact IH].
Qed.

(** ** Setting a solver up *)

(** X19. A solver made by [NewSolver] and [AddIncompatibility] has an
    empty trail and holds the incompatibilities in the order they were
    added; [initializeRootPackage] then decides the root at level 0 and
    appends the root's own incompatibility, which is thus the newest
    and the first that unit propagation visits for the root. *)
Theorem initializeRootPackage_state (root version : string)
  (given : list Incompatibility) :
  GetIncompatibilities (fresh root version given) = given
  ∧ Assignments (GetSolution (fresh root version given)) = []
  ∧ (let s := initializeRootPackage (fresh root version given) in
     Assignments (GetSolution s) = [rootAssignment root version]
     ∧ GetIncompatibilities s = given ++ [rootIncompatibility root version]
     ∧ GetDecisionLevel (GetSolution s) = 0
     ∧ ∃ older,
         rev (getIncompatibilitiesForPackage s root)
         = rootIncompatibility root version :: older).
Proof.
  unfold GetIncompatibilities, GetSolution.
  split; [unfold fresh; rewrite fresh_incompatibilities; reflexivity|].
  split; [unfold fresh; rewrite fresh_partialSolution; reflexivity|].
  rewrite initializeRootPackage_fresh. simpl.
  split; [reflexivity|]. split; [reflexivity|]. split; [reflexivity|].
  unfold getIncompatibilitiesForPackage.
  rewrite getIncompatibilitiesForPackage_loop_filter. simpl.
  rewrite List.filter_app. simpl. rewrite String.eqb_refl.
  rewrite List.rev_app_distr. simpl. eexists. reflexivity.
Qed.

(** ** The term a decision is made from *)

(** X20. [getTermForPackage] returns the term of the earliest
    assignment of the trail on the package (whereas
    [GetAssignmentByPackage] returns the latest), and nil exactly when
    no assignment of the trail is on the package. *)
Theorem getTermForPackage_earliest (s : Solver) (p : string) :
  (getTermForPackage s p = None
   ∧ Forall (λ b, Package (ATerm b) ≠ p) (Assignments (partialSolution s)))
  ∨ ∃ before a after,
      Assignments (partialSolution s) = before ++ a :: after
      ∧ Forall (λ b, Package (ATerm b) ≠ p) before
      ∧ Package (ATerm a) = p
      ∧ getTermForPackage s p = Some (ATerm a).
Proof.
  unfold getTermForPackage.
  induction (Assignments (partialSolution s)) as [|x l IH]; simpl;
    [left; split; [reflexivity|constructor]|].
  destruct (String.eqb (Package (ATerm x)) p) eqn:Hx; simpl.
  - right. exists [], x, l. apply String.eqb_eq in Hx.
    split; [reflexivity|]. split; [constructor|]. split; [exact Hx|reflexivity].
  - apply String.eqb_neq in Hx.
    destruct IH as [[H1 H2]|(before & a & after & -> & Hb & Ha & Hr)].
    + left. split; [exact H1|]. constructor; assumption.
    + right. exists (x :: before), a, after.
      split; [reflexivity|]. split; [constructor; assumption|]. split; assumption.
Qed.

(** ** Propagation with nothing to visit *)

(** X21. When no incompatibility of the store mentions the package,
    [UnitPropagation] returns success after one pass of its outer loop
    and leaves the solver as it is. *)
Theorem UnitPropagation_unmentioned_package
  (fuel : nat) (rnd : nat → nat) (k : nat) (s : Solver) (p : string) :
  Forall (λ C, mentions p (Terms C) = false) (incompatibilities s) →
  UnitPropagation (S fuel) rnd k s p
  = Returned (mkUnitPropagationResult true None, S k) s.
Proof.
  intros Hnone. unfold UnitPropagation.
  rewrite UnitPropagation_loop_unfold, pick_singleton.
  assert (getIncompatibilitiesForPackage s p = []) as ->.
  { unfold getIncompatibilitiesForPackage.
    rewrite getIncompatibilitiesForPackage_loop_filter. simpl.
    induction Hnone as [|C l HC _ IH]; [reflexivity|]. simpl. rewrite HC. exact IH. }
  simpl. rewrite difference_diag_L.
  rewrite UnitPropagation_loop_unfold. unfold pick. rewrite elements_empty. reflexivity.
Qed.

(** X21 on the solver of the repository's tests, for a package no
    incompatibility names. *)
Lemma UnitPropagation_unmentioned_package_witness :
  UnitPropagation 1 (λ _, 0%nat) 0 sample_solver "elsewhere"
  = Returned (mkUnitPropagationResult true None, 1%nat) sample_solver.
Proof.
  apply (UnitPropagation_unmentioned_package 0 (λ _, 0%nat) 0 sample_solver "elsewhere").
  vm_compute. repeat constructor.
Defined.

(** ** Causes of the entries of the trail *)







(** ** Decision levels count the decisions *)

Lemma levels_count_last (l : list Assignment) :
  l ≠ [] → levels_count_decisions l →
  GetDecisionLevel (mkPartialSolution l) = Z.of_nat (length (decided l)) - 1.
Proof.
  intros Hne Hl. unfold GetDecisionLevel. simpl.
  destruct (last l) as [a|] eqn:Ha; [|apply last_None in Ha; contradiction].
  rewrite last_lookup in Ha. rewrite (Hl _ _ Ha).
  rewrite take_ge; [reflexivity|]. lia.
Qed.

Lemma levels_count_snoc (l : list Assignment) (x : Assignment) :
  l ≠ [] → levels_count_decisions l →
  DecisionLevel x
  = GetDecisionLevel (mkPartialSolution l) + (if IsDecision x then 1 else 0) →
  levels_count_decisions (l ++ [x]).
Proof.
  intros Hne Hl Hx i a Ha.
  destruct (decide (i < length l)%nat) as [Hi|Hi].
  - rewrite lookup_app_l in Ha by lia. rewrite take_app_le by lia. exact (Hl i a Ha).
  - pose proof (lookup_lt_Some _ _ _ Ha) as Hlt. rewrite length_app in Hlt. simpl in Hlt.
    assert (i = length l) as -> by lia.
    rewrite lookup_app_r, Nat.sub_diag in Ha by lia. injection Ha as <-.
    rewrite take_ge by (rewrite length_app; simpl; lia).
    rewrite Hx, (levels_count_last l Hne Hl). unfold decided.
    rewrite List.filter_app, List.map_app, List.length_app. simpl.
    destruct (IsDecision x); simpl; lia.
Qed.

Lemma levels_count_prefix (l k : list Assignment) :
  levels_count_decisions (l ++ k) → levels_count_decisions l.
Proof.
  intros H i a Ha. pose proof (lookup_lt_Some _ _ _ Ha) as Hlt.
  pose proof (H i a (lookup_app_l_Some _ _ _ _ Ha)) as Hi.
  rewrite take_app_le in Hi by lia. exact Hi.
Qed.

Lemma levels_count_backtracked (l : list Assignment) :
  l ≠ [] ∧ levels_count_decisions l →
  Assignments (Backtrack (mkPartialSolution l) 0) ≠ []
  ∧ levels_count_decisions (Assignments (Backtrack (mkPartialSolution l) 0)).
Proof.
  intros [Hne Hl].
  destruct (Backtrack_from_spec 0 (length l) l eq_refl) as (removed & Heq & Hrem & _).
  change (Backtrack_from (length l) l 0 ≠ []
          ∧ levels_count_decisions (Backtrack_from (length l) l 0)).
  split.
  - intros Hnil. rewrite Hnil in Heq. simpl in Heq. subst removed.
    destruct l as [|h t]; [contradiction|].
    apply Forall_cons in Hrem as [Hh _].
    pose proof (Hl 0%nat h eq_refl) as H0. unfold decided in H0. simpl in H0.
    destruct (IsDecision h); simpl in H0; lia.
  - apply (levels_count_prefix _ removed). rewrite <- Heq. exact Hl.
Qed.

(** X23. On a trail that is not empty and where the decision level of
    every entry is the number of decisions made up to and including that
    entry, less one, [UnitPropagation] (however far it has run),
    [DecisionMaking], and so a whole pass through the body of the loop
    of [Solve], leave such a trail; and on such a trail the current
    decision level is the number of decisions less one. *)
Theorem trail_levels_stay_decision_counts
  (fuel : nat) (rnd : nat → nat) (k : nat) (s : Solver) (packageName : string) :
  Assignments (partialSolution s) ≠ [] →
  levels_count_decisions (Assignments (partialSolution s)) →
  GetDecisionLevel (partialSolution s)
  = Z.of_nat (length (decided (Assignments (partialSolution s)))) - 1
  ∧ levels_count_decisions
      (Assignments
         (partialSolution (outcome_solver (UnitPropagation fuel rnd k s packageName))))
  ∧ levels_count_decisions (Assignments (partialSolution (DecisionMaking s).1))
  ∧ levels_count_decisions
      (Assignments
         (partialSolution (iteration_solver (Solve_iteration fuel rnd k s packageName)))).
Proof.
  intros Hne Hl.
  pose (P := λ l : list Assignment, l ≠ [] ∧ levels_count_decisions l).
  assert (∀ l t C, t ∈ Terms C → P l →
            P (l ++ [mkAssignment (negate t) (GetDecisionLevel (mkPartialSolution l))
                       false (Some C)])) as Hderived.
  { intros l t C _ [Hne' Hl']. split; [intros Hnil; apply app_eq_nil in Hnil as [_ [=]]|].
    apply levels_count_snoc; [exact Hne'|exact Hl'|]. simpl. lia. }
  assert (∀ l t, P l →
            P (l ++ [mkAssignment t (GetDecisionLevel (mkPartialSolution l) + 1) true None]))
    as Hdecided.
  { intros l t [Hne' Hl']. split; [intros Hnil; apply app_eq_nil in Hnil as [_ [=]]|].
    apply levels_count_snoc; [exact Hne'|exact Hl'|]. reflexivity. }
  split; [|split; [|split]].
  - destruct (partialSolution s) as [l]. simpl in *. apply levels_count_last; assumption.
  - apply (UnitPropagation_loop_keeps P Hderived levels_count_backtracked rnd fuel k s
             {[packageName]} (conj Hne Hl)).
  - apply (DecisionMaking_keeps P Hdecided s (conj Hne Hl)).
  - apply (Solve_iteration_keeps P Hderived Hdecided levels_count_backtracked
             fuel rnd k s packageName (conj Hne Hl)).
Qed.

(** X23 on the solver of the conflict test once the root is decided. *)
Lemma trail_levels_stay_decision_counts_witness :
  levels_count_decisions
    (Assignments (partialSolution (DecisionMaking (conflict_state [fooDerivation])).1)).
Proof.
  apply (trail_levels_stay_decision_counts 0 (λ _, 0%nat) 0
           (conflict_state [fooDerivation]) "foo").
  - discriminate.
  - intros i a Ha. destruct i as [|[|i]]; try discriminate; injection Ha as <-; reflexivity.
Defined.
